(** * yamllint-ts VS Code extension: the diagnostic provider

    A shallow embedding of [src/diagnostics.ts] (class
    [YamlLintDiagnosticProvider]): the mapping of lint problems to editor
    diagnostics, the resolution and caching of the lint configuration, the
    lint pass itself and its debouncing.

    The host (VS Code, Node) and the rule engine (yamllint-ts) are not part
    of the repository.  What the provider reads from them is gathered in the
    record [Env]; what the provider shares with them and mutates (the timer
    queue of the event loop, the allocation of objects) is part of [State].
    The classes of the host that only compute ([Range]) are defined with
    the host's data. *)

From stdpp Require Import gmap strings list fin_maps.

Local Open Scope Z_scope.

(** ** JavaScript values *)

(** A JavaScript string that is indexed ([lineText[i]], [.length]) is the
    list of its UTF-16 code units.  Strings that are only passed around
    (paths, messages, rule names) are [string]s. *)
Abbreviation jsstring := (list N).

(** The code units of a Latin-1 [string], to write line texts down. *)
Fixpoint units (s : string) : jsstring :=
  match s with
  | EmptyString => []
  | String a s' => Ascii.N_of_ascii a :: units s'
  end.

(** [/\s/.test(c)] for a one-unit string [c]: the WhiteSpace and
    LineTerminator code points of ECMAScript. *)
Definition isWhiteSpace (c : N) : bool :=
  ((9 <=? c) && (c <=? 13) || (c =? 32) || (c =? 160) || (c =? 5760)
   || (8192 <=? c) && (c <=? 8202)
   || (c =? 8232) || (c =? 8233) || (c =? 8239) || (c =? 8287)
   || (c =? 12288) || (c =? 65279))%N.

(** What a [throw] carries: an [Error] object with its [message], or any
    other value, known by its [String(...)] conversion. *)
Inductive Thrown : Type :=
  | ErrorObject (message : string)
  | OtherValue (asString : string).

(** The completion of a call: a value, or a thrown exception. *)
Inductive Outcome (A : Type) : Type :=
  | Ok (a : A)
  | Throw (e : Thrown).
Arguments Ok {A} a.
Arguments Throw {A} e.

(** ** The host's data: documents, ranges, diagnostics *)

(** [vscode.TextDocument].  A document of the editor has at least one line
    (the empty document has one empty line), so the first line is kept
    apart from the others. *)
Record TextDocument : Type := {
  uri : string;             (* document.uri, as document.uri.toString() *)
  fsPath : string;          (* document.uri.fsPath *)
  firstLine : jsstring;
  moreLines : list jsstring
}.

Definition lines (document : TextDocument) : list jsstring :=
  firstLine document :: moreLines document.

Definition lineCount (document : TextDocument) : Z :=
  Z.of_nat (length (lines document)).

(** [document.lineAt(n).text]: the host throws on a line number that is
    out of range. *)
Definition lineAt (document : TextDocument) (n : Z) : Outcome jsstring :=
  if (0 <=? n) && (n <? lineCount document)
  then match lines document !! Z.to_nat n with
       | Some text => Ok text
       | None => Throw (ErrorObject "Illegal value for `line`")
       end
  else Throw (ErrorObject "Illegal value for `line`").

(** [document.getText()]: the lines, each but the last followed by a line
    feed. *)
Fixpoint joinLines (first : jsstring) (more : list jsstring) : jsstring :=
  match more with
  | [] => first
  | next :: more' => first ++ 10%N :: joinLines next more'
  end.

Definition getText (document : TextDocument) : jsstring :=
  joinLines (firstLine document) (moreLines document).

(** [vscode.Range]: a start position and an end position, each a line and
    a character, the start before or equal to the end. *)
Record Range : Type := {
  startLine : Z;
  startCharacter : Z;
  endLine : Z;
  endCharacter : Z
}.

(** [Position.isBefore] of the host: the position [(line1, character1)] is
    before [(line2, character2)]. *)
Definition isBefore (line1 character1 line2 character2 : Z) : bool :=
  (line1 <? line2) || (line1 =? line2) && (character1 <? character2).

(** [new vscode.Range(startLine, startCharacter, endLine, endCharacter)].
    The class belongs to the host, not to the repository; this is what the
    host does with the four numbers: it makes the two positions, each of
    which rejects a negative line or character, and when the first is not
    before the second it takes them in the other order ("if start is not
    before or equal to end, the values will be swapped"). *)
Definition new_Range (startLine startCharacter endLine endCharacter : Z)
  : Outcome Range :=
  if startLine <? 0
  then Throw (ErrorObject "Illegal argument: line must be non-negative")
  else if startCharacter <? 0
  then Throw (ErrorObject "Illegal argument: character must be non-negative")
  else if endLine <? 0
  then Throw (ErrorObject "Illegal argument: line must be non-negative")
  else if endCharacter <? 0
  then Throw (ErrorObject "Illegal argument: character must be non-negative")
  else if isBefore startLine startCharacter endLine endCharacter
  then Ok {| startLine := startLine; startCharacter := startCharacter;
             endLine := endLine; endCharacter := endCharacter |}
  else Ok {| startLine := endLine; startCharacter := endCharacter;
             endLine := startLine; endCharacter := startCharacter |}.

(** The number of characters a one-line range spans. *)
Definition width (r : Range) : Z := endCharacter r - startCharacter r.

Inductive DiagnosticSeverity : Type :=
  | Error
  | Warning
  | Information
  | Hint.

(** [vscode.Diagnostic] with the fields the provider sets. *)
Record Diagnostic : Type := {
  range : Range;
  message : string;
  severity : DiagnosticSeverity;
  source : option string;
  code : option string
}.

(** ** The rule engine's data *)

(** [LintProblem] of yamllint-ts: 1-based position, message, level and the
    rule that reported it, when there is one. *)
Record LintProblem : Type := {
  line : Z;
  column : Z;
  desc : string;            (* problem.message *)
  level : string;
  rule : option string
}.

(** ** problemToDiagnostic *)

(** The loop
    [while (endColumn < lineText.length && !/\s/.test(lineText[endColumn])) endColumn++]
    run on [rest], the units of [lineText] from [endColumn] on. *)
Fixpoint extendWord (rest : jsstring) (endColumn : Z) : Z :=
  match rest with
  | [] => endColumn
  | c :: rest' =>
      if isWhiteSpace c then endColumn else extendWord rest' (endColumn + 1)
  end.

(** The same loop, read literally: the index test and the unit at the index,
    one iteration per unit of fuel. *)
Fixpoint extendLoop (fuel : nat) (lineText : jsstring) (endColumn : Z)
  : option Z :=
  match fuel with
  | O => None
  | S fuel' =>
      match (if endColumn <? Z.of_nat (length lineText)
             then lineText !! Z.to_nat endColumn else None) with
      | Some c =>
          if negb (isWhiteSpace c)
          then extendLoop fuel' lineText (endColumn + 1)
          else Some endColumn
      | None => Some endColumn
      end
  end.

(** [if (problem.rule) diagnostic.code = problem.rule]: an absent rule and
    the empty string are both falsy. *)
Definition codeOf (r : option string) : option string :=
  match r with
  | Some name => if decide (name = "") then None else Some name
  | None => None
  end.

Definition problemToDiagnostic (problem : LintProblem) (document : TextDocument)
  : Outcome Diagnostic :=
  let line0 := Z.max 0 (line problem - 1) in
  let column0 := Z.max 0 (column problem - 1) in
  match lineAt document (Z.min line0 (lineCount document - 1)) with
  | Throw e => Throw e
  | Ok lineText =>
      let endColumn := extendWord (drop (Z.to_nat column0) lineText) column0 in
      let endColumn :=
        if decide (endColumn = column0)
        then Z.min (column0 + 1) (Z.of_nat (length lineText))
        else endColumn in
      match new_Range line0 column0 line0 endColumn with
      | Throw e => Throw e
      | Ok range =>
          let severity :=
            if decide (level problem = "error") then Error else Warning in
          Ok {| range := range;
                message := desc problem;
                severity := severity;
                source := Some "yamllint";
                code := codeOf (rule problem) |}
      end
  end.

(** The end column that [problemToDiagnostic] computes from the text of the
    line and the start column. *)
Definition endColumnOn (lineText : jsstring) (column0 : Z) : Z :=
  let e := extendWord (drop (Z.to_nat column0) lineText) column0 in
  if decide (e = column0)
  then Z.min (column0 + 1) (Z.of_nat (length lineText))
  else e.

(** ** Constants of the module *)

(** Configuration file names to search for, in order of priority. *)
Definition CONFIG_FILE_NAMES : list string :=
  [".yamllint"; ".yamllint.yaml"; ".yamllint.yml"; ".yamllint.json"].

(** The inlined default configuration text. *)
Definition DEFAULT_CONFIG : string :=
"---
yaml-files:
  - '*.yaml'
  - '*.yml'
  - '.yamllint'

rules:
  anchors: enable
  braces: enable
  brackets: enable
  colons: enable
  commas: enable
  comments:
    level: warning
  comments-indentation:
    level: warning
  document-end: disable
  document-start:
    level: warning
  empty-lines: enable
  empty-values: disable
  float-values: disable
  hyphens: enable
  indentation: enable
  key-duplicates: enable
  key-ordering: disable
  line-length: enable
  new-line-at-end-of-file: enable
  new-lines: enable
  octal-values: disable
  quoted-strings: disable
  trailing-spaces: enable
  truthy:
    level: warning
".

(** ** The environment and the state *)

(** A [YamlLintConfig] object of the rule engine: [ref] is the identity of
    the object (two objects are the same object when their [ref]s are
    equal), [rules] the rule set it was parsed into, which the provider
    never inspects. *)
Record YamlLintConfig : Type := {
  ref : nat;
  rules : string
}.

(** What the provider reads from its surroundings during one call: the
    [yamllint] settings, the workspace, Node's [path] and [fs], and the
    rule engine. *)
Record Env : Type := {
  enable : bool;                                 (* get('enable', true) *)
  config : string;                               (* get('config', '') *)
  debounceTimeSetting : Z;                       (* get('debounceTime', 300) *)
  getWorkspaceFolder : string -> option string;  (* folder of a uri: its fsPath *)
  path_resolve : string -> string -> string;
  path_join : string -> string -> string;
  existsSync : string -> bool;
  fromFile : string -> Outcome string;           (* YamlLintConfig.fromFile: read and parse *)
  parseConfig : string -> Outcome string;        (* new YamlLintConfig(content): parse *)
  runAll : jsstring -> YamlLintConfig -> string -> Outcome (list LintProblem)
}.

(** The fields of the provider, and the part of the host's state that the
    provider changes: the pending timeouts of the event loop (each with the
    time it is due and the document its callback captured), the next
    timeout handle, the next object identity, the clock, and the log of the
    timer callbacks that ran. *)
Record State : Type := {
  diagnosticCollection : gmap string (list Diagnostic);
  debounceTimers : gmap string nat;
  configCache : gmap string (option YamlLintConfig);
  debounceTime : Z;
  timers : gmap nat (Z * TextDocument);
  nextTimer : nat;
  nextObject : nat;
  now : Z;
  fired : list (nat * TextDocument)
}.

Definition withDiagnostics (f : gmap string (list Diagnostic) -> gmap string (list Diagnostic))
  (st : State) : State :=
  {| diagnosticCollection := f (diagnosticCollection st);
     debounceTimers := debounceTimers st; configCache := configCache st;
     debounceTime := debounceTime st; timers := timers st;
     nextTimer := nextTimer st; nextObject := nextObject st;
     now := now st; fired := fired st |}.

Definition withDebounceTimers (f : gmap string nat -> gmap string nat)
  (st : State) : State :=
  {| diagnosticCollection := diagnosticCollection st;
     debounceTimers := f (debounceTimers st); configCache := configCache st;
     debounceTime := debounceTime st; timers := timers st;
     nextTimer := nextTimer st; nextObject := nextObject st;
     now := now st; fired := fired st |}.

Definition withConfigCache
  (f : gmap string (option YamlLintConfig) -> gmap string (option YamlLintConfig))
  (st : State) : State :=
  {| diagnosticCollection := diagnosticCollection st;
     debounceTimers := debounceTimers st; configCache := f (configCache st);
     debounceTime := debounceTime st; timers := timers st;
     nextTimer := nextTimer st; nextObject := nextObject st;
     now := now st; fired := fired st |}.

Definition withDebounceTime (ms : Z) (st : State) : State :=
  {| diagnosticCollection := diagnosticCollection st;
     debounceTimers := debounceTimers st; configCache := configCache st;
     debounceTime := ms; timers := timers st;
     nextTimer := nextTimer st; nextObject := nextObject st;
     now := now st; fired := fired st |}.

Definition withTimers
  (f : gmap nat (Z * TextDocument) -> gmap nat (Z * TextDocument))
  (st : State) : State :=
  {| diagnosticCollection := diagnosticCollection st;
     debounceTimers := debounceTimers st; configCache := configCache st;
     debounceTime := debounceTime st; timers := f (timers st);
     nextTimer := nextTimer st; nextObject := nextObject st;
     now := now st; fired := fired st |}.

Definition withNextTimer (n : nat) (st : State) : State :=
  {| diagnosticCollection := diagnosticCollection st;
     debounceTimers := debounceTimers st; configCache := configCache st;
     debounceTime := debounceTime st; timers := timers st;
     nextTimer := n; nextObject := nextObject st;
     now := now st; fired := fired st |}.

Definition withNextObject (n : nat) (st : State) : State :=
  {| diagnosticCollection := diagnosticCollection st;
     debounceTimers := debounceTimers st; configCache := configCache st;
     debounceTime := debounceTime st; timers := timers st;
     nextTimer := nextTimer st; nextObject := n;
     now := now st; fired := fired st |}.

Definition withNow (t : Z) (st : State) : State :=
  {| diagnosticCollection := diagnosticCollection st;
     debounceTimers := debounceTimers st; configCache := configCache st;
     debounceTime := debounceTime st; timers := timers st;
     nextTimer := nextTimer st; nextObject := nextObject st;
     now := t; fired := fired st |}.

Definition withFired (f : list (nat * TextDocument) -> list (nat * TextDocument))
  (st : State) : State :=
  {| diagnosticCollection := diagnosticCollection st;
     debounceTimers := debounceTimers st; configCache := configCache st;
     debounceTime := debounceTime st; timers := timers st;
     nextTimer := nextTimer st; nextObject := nextObject st;
     now := now st; fired := f (fired st) |}.

(** ** Methods as state transformers that may throw *)

(** A method body: from the state before to its completion and the state
    after.  What was written before a [throw] stays written. *)
Definition M (A : Type) : Type := State -> Outcome A * State.

Definition ret {A : Type} (a : A) : M A := fun st => (Ok a, st).

Definition bind {A B : Type} (m : M A) (k : A -> M B) : M B :=
  fun st =>
    match m st with
    | (Ok a, st') => k a st'
    | (Throw e, st') => (Throw e, st')
    end.

(** [try { body } catch (error) { handler }] *)
Definition try {A : Type} (body : M A) (handler : Thrown -> M A) : M A :=
  fun st =>
    match body st with
    | (Ok a, st') => (Ok a, st')
    | (Throw e, st') => handler e st'
    end.

Definition gets {A : Type} (f : State -> A) : M A := fun st => (Ok (f st), st).

Definition modify (f : State -> State) : M unit := fun st => (Ok tt, f st).

(** The completion of a call into the engine or the host that leaves the
    state alone. *)
Definition call {A : Type} (o : Outcome A) : M A := fun st => (o, st).

Declare Scope method_scope.
Delimit Scope method_scope with method.
Bind Scope method_scope with M.
Notation "x <- m ;; k" := (bind m (fun x => k))
  (at level 100, m at next level, right associativity) : method_scope.
Notation "m ;; k" := (bind m (fun _ => k))
  (at level 100, right associativity) : method_scope.
Local Open Scope method_scope.

(** [array.map(f)] with an [f] that may throw: left to right, up to the
    first throw. *)
Fixpoint mapM {A B : Type} (f : A -> M B) (l : list A) : M (list B) :=
  match l with
  | [] => ret []
  | a :: l' => b <- f a ;; bs <- mapM f l' ;; ret (b :: bs)
  end.

(** *** The host's timers *)

(** Node replaces a delay below 1 or above 2^31-1 by 1. *)
Definition timeoutDelay (ms : Z) : Z :=
  if (1 <=? ms) && (ms <=? 2147483647) then ms else 1.

(** [setTimeout(callback, ms)], where the callback is the one of
    [lintWithDebounce] and has captured [document]. *)
Definition setTimeout (document : TextDocument) (ms : Z) : M nat :=
  fun st =>
    let timer := nextTimer st in
    (Ok timer,
     withNextTimer (S timer)
       (withTimers (insert timer (now st + timeoutDelay ms, document)) st)).

Definition clearTimeout (timer : nat) : M unit :=
  modify (withTimers (delete timer)).

(** *** The engine's constructors: a new object on success *)

Definition newObject (parsed : Outcome string) : M YamlLintConfig :=
  r <- call parsed ;;
  fun st =>
    (Ok {| ref := nextObject st; rules := r |},
     withNextObject (S (nextObject st)) st).

Definition YamlLintConfig_fromFile (env : Env) (path : string) : M YamlLintConfig :=
  newObject (fromFile env path).

Definition new_YamlLintConfig (env : Env) (content : string) : M YamlLintConfig :=
  newObject (parseConfig env content).

(** ** The provider *)

(** [updateConfiguration()] *)
Definition updateConfiguration (env : Env) : M unit :=
  modify (withDebounceTime (debounceTimeSetting env)) ;;
  (* Clear config cache when configuration changes *)
  modify (withConfigCache (fun _ => ∅)).

(** [clear(document)] *)
Definition clear (document : TextDocument) : M unit :=
  modify (withDiagnostics (delete (uri document))) ;;
  (* Clear any pending debounce timer *)
  timer <- gets (fun st => debounceTimers st !! uri document) ;;
  match timer with
  | Some timer =>
      clearTimeout timer ;;
      modify (withDebounceTimers (delete (uri document)))
  | None => ret tt
  end.

(** [if (this.configCache.has(path)) { const cached = this.configCache.get(path); if (cached) return cached; }]:
    [Some cached] when the method returns here, [None] when it goes on.
    A stored [null] is not returned. *)
Definition cachedConfig (path : string) : M (option YamlLintConfig) :=
  cache <- gets configCache ;;
  match cache !! path with
  | Some (Some cached) => ret (Some cached)
  | _ => ret None
  end.

(** [const config = load; this.configCache.set(path, config); return config;] *)
Definition loadAndCache (load : M YamlLintConfig) (path : string)
  : M (option YamlLintConfig) :=
  config <- load ;;
  modify (withConfigCache (insert path (Some config))) ;;
  ret (Some config).

(** The block [if (userConfigPath) { ... }] of [getYamlLintConfig]:
    [Some config] when the method returns from inside the block. *)
Definition userSpecified (env : Env) (workspacePath : option string)
  : M (option YamlLintConfig) :=
  let userConfigPath := config env in
  if decide (userConfigPath = "") then ret None
  else
    (* Resolve relative paths against workspace *)
    let resolvedPath :=
      match workspacePath with
      | Some workspacePath => path_resolve env workspacePath userConfigPath
      | None => userConfigPath
      end in
    cached <- cachedConfig resolvedPath ;;
    match cached with
    | Some cached => ret (Some cached)
    | None =>
        try (loadAndCache (YamlLintConfig_fromFile env resolvedPath) resolvedPath)
            (fun _ => ret None (* console.warn *))
    end.

(** The loop [for (const configName of CONFIG_FILE_NAMES) { ... }], on the
    names that are left. *)
Fixpoint searchWorkspace (env : Env) (workspacePath : string)
  (names : list string) : M (option YamlLintConfig) :=
  match names with
  | [] => ret None
  | configName :: names' =>
      let configPath := path_join env workspacePath configName in
      cached <- cachedConfig configPath ;;
      match cached with
      | Some cached => ret (Some cached)
      | None =>
          found <- try (if existsSync env configPath
                        then loadAndCache (YamlLintConfig_fromFile env configPath)
                                          configPath
                        else ret None)
                       (fun _ => ret None (* console.warn *)) ;;
          match found with
          | Some config => ret (Some config)
          | None => searchWorkspace env workspacePath names'
          end
      end
  end.

(** The end of [getYamlLintConfig]: fall back to default configuration. *)
Definition defaultConfiguration (env : Env) : M YamlLintConfig :=
  let defaultKey := "__default__" in
  cached <- cachedConfig defaultKey ;;
  match cached with
  | Some cached => ret cached
  | None =>
      config <- new_YamlLintConfig env DEFAULT_CONFIG ;;
      modify (withConfigCache (insert defaultKey (Some config))) ;;
      ret config
  end.

(** [workspaceFolder?.uri.fsPath], as [workspacePath ? ... : ...] and
    [if (workspacePath)] read it: an empty path is falsy, as an absent
    one. *)
Definition workspacePathOf (env : Env) (document : TextDocument) : option string :=
  match getWorkspaceFolder env (uri document) with
  | Some "" => None
  | workspacePath => workspacePath
  end.

(** [getYamlLintConfig(document)] *)
Definition getYamlLintConfig (env : Env) (document : TextDocument)
  : M YamlLintConfig :=
  let workspacePath := workspacePathOf env document in
  found <- userSpecified env workspacePath ;;
  match found with
  | Some config => ret config
  | None =>
      (* Search for config file in workspace *)
      found <- match workspacePath with
               | Some workspacePath =>
                   searchWorkspace env workspacePath CONFIG_FILE_NAMES
               | None => ret None
               end ;;
      match found with
      | Some config => ret config
      | None => defaultConfiguration env
      end
  end.

(** [error instanceof Error ? error.message : String(error)] *)
Definition errorText (error : Thrown) : string :=
  match error with
  | ErrorObject message => message
  | OtherValue asString => asString
  end.

(** The single diagnostic that [lint] shows when linting fails; its range
    is what [new vscode.Range(0, 0, 0, 0)] makes. *)
Definition errorDiagnostic (error : Thrown) : Diagnostic :=
  {| range := {| startLine := 0; startCharacter := 0;
                 endLine := 0; endCharacter := 0 |};
     message := "yamllint error: " +:+ errorText error;
     severity := Error;
     source := Some "yamllint";
     code := None |}.

(** The [try] block of [lint]. *)
Definition lintBody (env : Env) (document : TextDocument) : M unit :=
  yamlConfig <- getYamlLintConfig env document ;;
  let content := getText document in
  let filepath := fsPath document in
  (* Run yamllint (runAll returns an array of problems) *)
  problems <- call (runAll env content yamlConfig filepath) ;;
  (* Convert problems to VS Code diagnostics *)
  diagnostics <- mapM (fun problem => call (problemToDiagnostic problem document))
                      problems ;;
  modify (withDiagnostics (insert (uri document) diagnostics)).

(** [lint(document)]: the function has no [await], so its body runs to its
    end when it is called. *)
Definition lint (env : Env) (document : TextDocument) : M unit :=
  if negb (enable env) then clear document
  else
    try (lintBody env document)
        (fun error =>
           (* Show a single error diagnostic if linting fails *)
           modify (withDiagnostics (insert (uri document) [errorDiagnostic error]))).

(** The callback that [lintWithDebounce] hands to [setTimeout]. *)
Definition debounced (env : Env) (document : TextDocument) : M unit :=
  modify (withDebounceTimers (delete (uri document))) ;;
  lint env document.

(** [lintWithDebounce(document)] *)
Definition lintWithDebounce (document : TextDocument) : M unit :=
  (* Clear existing timer *)
  existingTimer <- gets (fun st => debounceTimers st !! uri document) ;;
  match existingTimer with
  | Some existingTimer => clearTimeout existingTimer
  | None => ret tt
  end ;;
  (* Set new timer *)
  ms <- gets debounceTime ;;
  timer <- setTimeout document ms ;;
  modify (withDebounceTimers (insert (uri document) timer)).

(** [dispose()] *)
Definition dispose : M unit :=
  modify (withDiagnostics (fun _ => ∅)) ;;
  (* Clear all debounce timers *)
  pending <- gets (fun st => map_to_list (debounceTimers st)) ;;
  modify (withTimers (fun ts => foldr (fun entry ts => delete entry.2 ts) ts pending)) ;;
  modify (withDebounceTimers (fun _ => ∅)) ;;
  modify (withConfigCache (fun _ => ∅)).

(** The state after [new YamlLintDiagnosticProvider()] in a host without
    pending timeouts. *)
Definition constructed (env : Env) : State :=
  (updateConfiguration env
     {| diagnosticCollection := ∅; debounceTimers := ∅; configCache := ∅;
        debounceTime := 300; timers := ∅; nextTimer := 0; nextObject := 0;
        now := 0; fired := [] |}).2.

(** ** The event loop *)

(** A timeout comes due: the host forgets it and runs its callback. *)
Definition fire (env : Env) (timer : nat) (st : State) : State :=
  match timers st !! timer with
  | Some (due, document) =>
      (debounced env document
         (withFired (fun log => log ++ [(timer, document)])
            (withNow (Z.max (now st) due)
               (withTimers (delete timer) st)))).2
  | None => st
  end.

(** Of two pending timeouts, the one that runs first: the one due earlier,
    and of two due together the one set earlier. *)
Definition earlier (a b : nat * (Z * TextDocument)) : bool :=
  (a.2.1 <? b.2.1) || (a.2.1 =? b.2.1) && (a.1 <? b.1)%nat.

(** The first timeout to run among those due at time [t], if one is. *)
Definition nextDue (t : Z) (st : State) : option (nat * (Z * TextDocument)) :=
  foldr (fun entry best =>
           if entry.2.1 <=? t
           then match best with
                | Some b => if earlier entry b then Some entry else Some b
                | None => Some entry
                end
           else best)
        None (map_to_list (timers st)).

Fixpoint runDue (env : Env) (fuel : nat) (t : Z) (st : State) : State :=
  match fuel with
  | O => st
  | S fuel' =>
      match nextDue t st with
      | Some (timer, _) => runDue env fuel' t (fire env timer st)
      | None => st
      end
  end.

(** Time passes until [t]: every timeout due by then runs, in order. *)
Definition advance (env : Env) (t : Z) (st : State) : State :=
  let st' := runDue env (size (timers st)) t st in
  withNow (Z.max (now st') t) st'.

(** What happens to the provider between two returns to the event loop:
    the extension calls one of its methods, or the event loop runs the
    callback of one pending timeout ([Fire], a single step of [Wait]), or
    time passes ([Wait]). *)
Inductive Action : Type :=
  | Lint (document : TextDocument)
  | LintWithDebounce (document : TextDocument)
  | Clear (document : TextDocument)
  | UpdateConfiguration
  | Dispose
  | Fire (timer : nat)
  | Wait (ms : Z).

Definition perform (env : Env) (a : Action) (st : State) : State :=
  match a with
  | Lint document => (lint env document st).2
  | LintWithDebounce document => (lintWithDebounce document st).2
  | Clear document => (clear document st).2
  | UpdateConfiguration => (updateConfiguration env st).2
  | Dispose => (dispose st).2
  | Fire timer => fire env timer st
  | Wait ms => advance env (now st + ms) st
  end.

(** The states the provider can be in: the constructed one, and those a
    sequence of actions leads to, each in the surroundings of its time. *)
Inductive reachable : State -> Prop :=
  | reachable_constructed (env : Env) : reachable (constructed env)
  | reachable_perform (env : Env) (a : Action) (st : State) :
      reachable st -> reachable (perform env a st).

(** The states that follow a state. *)
Inductive follows (st : State) : State -> Prop :=
  | follows_refl : follows st st
  | follows_perform (env : Env) (a : Action) (st' : State) :
      follows st st' -> follows st (perform env a st').

(** [n] calls of [lintWithDebounce] in a row: the first now, each further
    one [ms] after the one before. *)
Fixpoint rapid (env : Env) (calls : list (Z * TextDocument)) (st : State) : State :=
  match calls with
  | [] => st
  | (ms, document) :: calls' =>
      rapid env calls'
        (perform env (LintWithDebounce document) (perform env (Wait ms) st))
  end.

(** The callbacks in a log that ran for a document. *)
Definition ranFor (u : string) (log : list (nat * TextDocument)) : list TextDocument :=
  (filter (fun entry => uri entry.2 = u) log).*2.

(** ** The resolution order in the words of the specification

    The definitions of this paragraph follow section 4.1 of the
    specification (Config Resolver, resolution order), not the code; the
    code is compared with them below. *)

(** Specification 4.1, step 1: the user-specified path, resolved relative
    to the workspace root if there is one, else as given. *)
Definition resolvedPath (env : Env) (workspacePath : option string) : string :=
  match workspacePath with
  | Some workspacePath => path_resolve env workspacePath (config env)
  | None => config env
  end.

(** The state after a newly constructed config object was cached under a
    key. *)
Definition stored (key : string) (config : YamlLintConfig) (st : State) : State :=
  withConfigCache (insert key (Some config))
    (withNextObject (S (nextObject st)) st).

(** Specification 4.1, steps 1 and 2, one source of the resolution order:
    look up the cache by the path, and on a hit with a present value that
    value is the result; on a miss, check existence (for a candidate of the
    workspace, [mustExist]), then attempt to load and parse; on success the
    new object is cached and is the result.  [None]: the source fails,
    resolution goes on. *)
Definition fromSource (env : Env) (mustExist : bool) (path : string) (st : State)
  : option (YamlLintConfig * State) :=
  match configCache st !! path with
  | Some (Some cached) => Some (cached, st)
  | _ =>
      if mustExist && negb (existsSync env path) then None
      else match fromFile env path with
           | Ok r =>
               let config := {| ref := nextObject st; rules := r |} in
               Some (config, stored path config st)
           | Throw _ => None
           end
  end.

(** Specification 4.1, step 3: the built-in default, constructed once and
    cached under the sentinel key. *)
Definition fromDefault (env : Env) (st : State) : Outcome YamlLintConfig * State :=
  match configCache st !! "__default__" with
  | Some (Some cached) => (Ok cached, st)
  | _ =>
      match parseConfig env DEFAULT_CONFIG with
      | Ok r =>
          let config := {| ref := nextObject st; rules := r |} in
          (Ok config, stored "__default__" config st)
      | Throw e => (Throw e, st)
      end
  end.

(** Specification 4.1, step 2: the candidate paths of a workspace root, in
    priority order. *)
Definition candidates (env : Env) (workspacePath : option string) : list string :=
  match workspacePath with
  | Some workspacePath => path_join env workspacePath <$> CONFIG_FILE_NAMES
  | None => []
  end.

(** Specification 4.1, step 2: the first candidate that succeeds, if one
    does. *)
Fixpoint firstCandidate (env : Env) (paths : list string) (st : State)
  : option (YamlLintConfig * State) :=
  match paths with
  | [] => None
  | path :: paths' =>
      match fromSource env true path st with
      | Some result => Some result
      | None => firstCandidate env paths' st
      end
  end.

(** ** What the properties below are stated with *)

(** What was loaded under a key: the file of that path or, under the
    sentinel key, the built-in default text. *)
Definition loaded (env : Env) (key : string) (r : string) : Prop :=
  fromFile env key = Ok r
  \/ (key = "__default__" /\ parseConfig env DEFAULT_CONFIG = Ok r).

(** How a resolution that returned [cfg] left the state: [cfg] is cached
    under [key], and either nothing was written, or [cfg] is a newly
    constructed object, loaded for that key, and storing it is all that was
    written. *)
Definition resolvedAt (env : Env) (key : string) (cfg : YamlLintConfig)
  (st st' : State) : Prop :=
  configCache st' !! key = Some (Some cfg)
  /\ (st' = st
      \/ (ref cfg = nextObject st /\ st' = stored key cfg st
          /\ loaded env key (rules cfg))).

(** The invariants of the provider's state between two calls: each
    registered timer is pending in the host and was set for the document it
    is registered for, each pending timeout is the registered timer of its
    document, handles and object identities that are in use have been
    given out. *)
Record invariant (st : State) : Prop := {
  registered_pending :
    forall u timer, debounceTimers st !! u = Some timer ->
      exists due document,
        timers st !! timer = Some (due, document) /\ uri document = u;
  pending_registered :
    forall timer due document, timers st !! timer = Some (due, document) ->
      debounceTimers st !! uri document = Some timer;
  pending_given :
    forall timer, is_Some (timers st !! timer) -> (timer < nextTimer st)%nat;
  fired_given :
    forall timer document, (timer, document) ∈ fired st -> (timer < nextTimer st)%nat;
  fired_not_pending :
    forall timer document, (timer, document) ∈ fired st -> timers st !! timer = None;
  cached_given :
    forall key cached, configCache st !! key = Some (Some cached) ->
      (ref cached < nextObject st)%nat
}.

(** The objects in the cache have been given out. *)
Definition cacheGiven (st : State) : Prop :=
  forall key cached, configCache st !! key = Some (Some cached) ->
    (ref cached < nextObject st)%nat.

(** Two states with the same timers, log, clock and delay. *)
Definition sameTimers (st st' : State) : Prop :=
  debounceTimers st' = debounceTimers st
  /\ timers st' = timers st
  /\ nextTimer st' = nextTimer st
  /\ fired st' = fired st
  /\ now st' = now st
  /\ debounceTime st' = debounceTime st.

(** From [st] to [st'] the timer of [u] went away, cancelled ([extra] is
    empty) or run ([extra] is its entry in the log), and the clock came to
    [t]. *)
Definition removed (u : string) (timer : nat) (extra : list (nat * TextDocument))
  (t : Z) (st st' : State) : Prop :=
  debounceTimers st' = delete u (debounceTimers st)
  /\ timers st' = delete timer (timers st)
  /\ nextTimer st' = nextTimer st
  /\ fired st' = fired st ++ extra
  /\ now st' = t
  /\ debounceTime st' = debounceTime st.


(** The timer of [u] is registered and pending, due at [due], and its
    callback has captured [document]. *)
Definition armed (u : string) (timer : nat) (due : Z) (document : TextDocument)
  (st : State) : Prop :=
  debounceTimers st !! u = Some timer
  /\ timers st !! timer = Some (due, document).

(** ** Sample documents, problems and surroundings *)

(** A document of three lines; the last line is empty. *)
Definition sampleDocument : TextDocument :=
  {| uri := "file:///work/a.yaml"; fsPath := "/work/a.yaml";
     firstLine := units "key: value";
     moreLines := [units "list:   "; units ""] |}.

(** A one-line document that does not end with a new line. *)
Definition oneLineDocument : TextDocument :=
  {| uri := "file:///work/b.yaml"; fsPath := "/work/b.yaml";
     firstLine := units "key: value";
     moreLines := [] |}.

Definition problemAt (l c : Z) (lvl : string) (r : option string) : LintProblem :=
  {| line := l; column := c; desc := "problem"; level := lvl; rule := r |}.

(** What the engine reports for a file without a final new line: the
    position after the last character of the last line. *)
Definition noNewLineAtEnd : LintProblem :=
  {| line := 1; column := 11;
     desc := "no new line character at the end of file";
     level := "error"; rule := Some "new-line-at-end-of-file" |}.

(** The document above after an edit that left one line. *)
Definition editedDocument : TextDocument :=
  {| uri := "file:///work/a.yaml"; fsPath := "/work/a.yaml";
     firstLine := units "key: value";
     moreLines := [] |}.

Definition ENOENT (path : string) : Thrown :=
  ErrorObject ("ENOENT: no such file or directory, open '" +:+ path +:+ "'").

Definition toyJoin (dir name : string) : string := dir +:+ "/" +:+ name.

Definition toyResolve (dir path : string) : string :=
  if String.prefix "/" path then path else toyJoin dir path.

(** An engine that knows the sample documents. *)
Definition toyRunAll (content : jsstring) (cfg : YamlLintConfig) (filepath : string)
  : Outcome (list LintProblem) :=
  if decide (content = getText sampleDocument)
  then Ok [problemAt 2 6 "error" (Some "trailing-spaces");
           problemAt 1 1 "warning" (Some "document-start")]
  else if decide (content = getText oneLineDocument)
  then Ok [noNewLineAtEnd]
  else Ok [].

(** A workspace [/work] whose only configuration file is [.yamllint.yml],
    and a [yamllint.config] setting that names a file that is not there. *)
Definition sampleEnv : Env :=
  {| enable := true;
     config := "missing.yaml";
     debounceTimeSetting := 300;
     getWorkspaceFolder := fun _ => Some "/work";
     path_resolve := toyResolve;
     path_join := toyJoin;
     existsSync := fun path => bool_decide (path = "/work/.yamllint.yml");
     fromFile := fun path =>
       if decide (path = "/work/.yamllint.yml")
       then Ok "rules of /work/.yamllint.yml"
       else Throw (ENOENT path);
     parseConfig := fun content => Ok content;
     runAll := toyRunAll |}.

(** The same with linting switched off. *)
Definition disabledEnv : Env :=
  {| enable := false;
     config := config sampleEnv;
     debounceTimeSetting := debounceTimeSetting sampleEnv;
     getWorkspaceFolder := getWorkspaceFolder sampleEnv;
     path_resolve := toyResolve;
     path_join := toyJoin;
     existsSync := existsSync sampleEnv;
     fromFile := fromFile sampleEnv;
     parseConfig := parseConfig sampleEnv;
     runAll := toyRunAll |}.

(** The same with an engine that throws. *)
Definition brokenEnv : Env :=
  {| enable := true;
     config := config sampleEnv;
     debounceTimeSetting := debounceTimeSetting sampleEnv;
     getWorkspaceFolder := getWorkspaceFolder sampleEnv;
     path_resolve := toyResolve;
     path_join := toyJoin;
     existsSync := existsSync sampleEnv;
     fromFile := fromFile sampleEnv;
     parseConfig := parseConfig sampleEnv;
     runAll := fun _ _ _ => Throw (ErrorObject "unexpected token") |}.

(** The same with an engine that throws a value that is not an [Error]
    object (a string). *)
Definition throwingEnv : Env :=
  {| enable := true;
     config := config sampleEnv;
     debounceTimeSetting := debounceTimeSetting sampleEnv;
     getWorkspaceFolder := getWorkspaceFolder sampleEnv;
     path_resolve := toyResolve;
     path_join := toyJoin;
     existsSync := existsSync sampleEnv;
     fromFile := fromFile sampleEnv;
     parseConfig := parseConfig sampleEnv;
     runAll := fun _ _ _ => Throw (OtherValue "stack overflow") |}.

(** No workspace folder, no file at all, and a [yamllint.config] setting
    that is the relative path [__default__]. *)
Definition collidingEnv : Env :=
  {| enable := true;
     config := "__default__";
     debounceTimeSetting := 300;
     getWorkspaceFolder := fun _ => None;
     path_resolve := toyResolve;
     path_join := toyJoin;
     existsSync := fun _ => false;
     fromFile := fun path => Throw (ENOENT path);
     parseConfig := fun content => Ok content;
     runAll := toyRunAll |}.

(** The same after the user has written the file [__default__]. *)
Definition collidingEnvLater : Env :=
  {| enable := true;
     config := "__default__";
     debounceTimeSetting := 300;
     getWorkspaceFolder := fun _ => None;
     path_resolve := toyResolve;
     path_join := toyJoin;
     existsSync := fun path => bool_decide (path = "__default__");
     fromFile := fun path =>
       if decide (path = "__default__")
       then Ok "rules of the file __default__"
       else Throw (ENOENT path);
     parseConfig := fun content => Ok content;
     runAll := toyRunAll |}.

(** ** More samples *)

(** A second document of the sample workspace. *)
Definition otherDocument : TextDocument :=
  {| uri := "file:///work/c.yaml"; fsPath := "/work/c.yaml";
     firstLine := units "x: 1";
     moreLines := [units ""] |}.

(** The sample state: both documents were linted, and a change of each is
    being debounced. *)
Definition busyState : State :=
  perform sampleEnv (LintWithDebounce otherDocument)
    (perform sampleEnv (Lint otherDocument)
       (perform sampleEnv (LintWithDebounce sampleDocument)
          (perform sampleEnv (Lint sampleDocument) (constructed sampleEnv)))).


(** ** While the cache is not cleared *)

(** The calls that clear the cache of configs. *)
Definition clearsCache (a : Action) : bool :=
  match a with
  | UpdateConfiguration | Dispose => true
  | _ => false
  end.

(** The states that follow a state by calls that do not clear the cache
    and by the passing of time, each step in surroundings of its own. *)
Inductive followsCached (st : State) : State -> Prop :=
  | followsCached_refl : followsCached st st
  | followsCached_perform (env : Env) (a : Action) (st' : State) :
      followsCached st st' -> clearsCache a = false ->
      followsCached st (perform env a st').

(** Every config that is cached in [st] is cached in [st'], under the same
    key and as the same object. *)
Definition cacheKept (st st' : State) : Prop :=
  forall key cached,
    configCache st !! key = Some (Some cached) ->
    configCache st' !! key = Some (Some cached).

(** The cache holds no object older than the object [n]. *)
Definition cachedSince (n : nat) (st : State) : Prop :=
  (n <= nextObject st)%nat
  /\ forall key cached,
       configCache st !! key = Some (Some cached) -> (n <= ref cached)%nat.

(** ** What a lint pass publishes *)

(** What [lint] publishes for a document when linting is enabled: the
    diagnostics mapped from the problems of a run of the engine on the
    text of the document, or the single error diagnostic. *)
Definition publishedBy (env : Env) (document : TextDocument)
  (diagnostics : list Diagnostic) : Prop :=
  (exists cfg problems,
     runAll env (getText document) cfg (fsPath document) = Ok problems
     /\ Forall2 (fun problem d => problemToDiagnostic problem document = Ok d)
          problems diagnostics)
  \/ (exists e, diagnostics = [errorDiagnostic e]).

(** ** The extension ([src/extension.ts]) *)

From stdpp Require pretty.

(** A document as the extension reads it: what the provider reads of it,
    its language identifier and its file name. *)
Record EditorDocument : Type := {
  textDocument : TextDocument;
  languageId : string;
  fileName : string
}.

(** [s.endsWith(suffix)] *)
Definition endsWith (s suffix : string) : bool :=
  (String.length suffix <=? String.length s)%nat
  && bool_decide
       (String.substring (String.length s - String.length suffix)
          (String.length suffix) s = suffix).

(** [isYamlDocument(document)] *)
Definition isYamlDocument (document : EditorDocument) : bool :=
  bool_decide (languageId document = "yaml")
  || endsWith (fileName document) ".yaml"
  || endsWith (fileName document) ".yml".

(** The settings [yamllint.lintOnOpen], [lintOnSave] and [lintOnChange],
    which only the extension reads. *)
Record Triggers : Type := {
  lintOnOpen : bool;
  lintOnSave : bool;
  lintOnChange : bool
}.

(** ['lintOnOpen' | 'lintOnSave' | 'lintOnChange'] *)
Inductive Trigger : Type :=
  | OnOpen
  | OnSave
  | OnChange.

(** [shouldLint(document, trigger)] *)
Definition shouldLint (env : Env) (triggers : Triggers)
  (document : EditorDocument) (trigger : Trigger) : bool :=
  if negb (isYamlDocument document) then false
  else if negb (enable env) then false
  else match trigger with
       | OnOpen => lintOnOpen triggers
       | OnSave => lintOnSave triggers
       | OnChange => lintOnChange triggers
       end.

(** The call of an [async] method that is not awaited
    ([diagnosticProvider?.lint(document)]): its body, which has no [await],
    runs to its end; a throw inside would reject the promise and not reach
    the caller. *)
Definition notAwaited (m : M unit) : M unit :=
  fun st => (Ok tt, (m st).2).

(** [array.forEach(f)] *)
Fixpoint forEach {A : Type} (f : A -> M unit) (l : list A) : M unit :=
  match l with
  | [] => ret tt
  | a :: l' => f a ;; forEach f l'
  end.

(** The listeners that [activate] registers, once the provider exists. *)
Definition onDidOpenTextDocument (env : Env) (triggers : Triggers)
  (document : EditorDocument) : M unit :=
  if shouldLint env triggers document OnOpen
  then notAwaited (lint env (textDocument document))
  else ret tt.

Definition onDidSaveTextDocument (env : Env) (triggers : Triggers)
  (document : EditorDocument) : M unit :=
  if shouldLint env triggers document OnSave
  then notAwaited (lint env (textDocument document))
  else ret tt.

Definition onDidChangeTextDocument (env : Env) (triggers : Triggers)
  (document : EditorDocument) : M unit :=
  if shouldLint env triggers document OnChange
  then lintWithDebounce (textDocument document)
  else ret tt.

Definition onDidCloseTextDocument (document : EditorDocument) : M unit :=
  clear (textDocument document).

(** [affects] is [event.affectsConfiguration('yamllint')], [textDocuments]
    is [vscode.workspace.textDocuments]. *)
Definition onDidChangeConfiguration (env : Env) (affects : bool)
  (textDocuments : list EditorDocument) : M unit :=
  if affects
  then
    updateConfiguration env ;;
    (* Re-lint all open YAML documents *)
    forEach (fun document =>
               if isYamlDocument document
               then notAwaited (lint env (textDocument document))
               else ret tt)
            textDocuments
  else ret tt.

(** The command [yamllint.lint]; [activeTextEditor] is the document of
    [vscode.window.activeTextEditor], if there is an editor. *)
Definition lintCommand (env : Env) (activeTextEditor : option EditorDocument)
  : M unit :=
  match activeTextEditor with
  | Some document =>
      if isYamlDocument document
      then notAwaited (lint env (textDocument document))
      else ret tt
  | None => ret tt
  end.

(** What the host tells the extension. *)
Inductive Event : Type :=
  | DidOpenTextDocument (document : EditorDocument)
  | DidSaveTextDocument (document : EditorDocument)
  | DidChangeTextDocument (document : EditorDocument)
  | DidCloseTextDocument (document : EditorDocument)
  | DidChangeConfiguration (affects : bool) (textDocuments : list EditorDocument)
  | LintCommand (activeTextEditor : option EditorDocument).

Definition handle (env : Env) (triggers : Triggers) (event : Event) : M unit :=
  match event with
  | DidOpenTextDocument document => onDidOpenTextDocument env triggers document
  | DidSaveTextDocument document => onDidSaveTextDocument env triggers document
  | DidChangeTextDocument document => onDidChangeTextDocument env triggers document
  | DidCloseTextDocument document => onDidCloseTextDocument document
  | DidChangeConfiguration affects textDocuments =>
      onDidChangeConfiguration env affects textDocuments
  | LintCommand activeTextEditor => lintCommand env activeTextEditor
  end.

(** The state of the provider after [activate(context)]: the provider is
    constructed, then all currently open YAML documents are linted. *)
Definition activate (env : Env) (triggers : Triggers)
  (textDocuments : list EditorDocument) : State :=
  (forEach (fun document =>
              if shouldLint env triggers document OnOpen
              then notAwaited (lint env (textDocument document))
              else ret tt)
           textDocuments (constructed env)).2.

(** [deactivate()] *)
Definition deactivate : M unit := dispose.

(** *** The command [yamllint.lintWorkspace] *)

(** What the command shows to the user. *)
Inductive Notification : Type :=
  | showWarningMessage (text : string)
  | showInformationMessage (text : string).

(** The loop [for (const file of files) { ... }] on the files that are
    left, as it runs when no other event is handled between its [await]s.
    [openTextDocument] is the host's answer for a file, which may fail, and
    [isCancellationRequested n] what the token says at the start of the
    turn that finds [n] files processed. *)
Fixpoint lintFiles (env : Env) (openTextDocument : string -> Outcome TextDocument)
  (isCancellationRequested : nat -> bool) (files : list string) (processed : nat)
  (st : State) : nat * State :=
  match files with
  | [] => (processed, st)
  | file :: files' =>
      if isCancellationRequested processed then (processed, st)
      else
        let st' :=
          match openTextDocument file with
          | Ok document => (lint env document st).2
          | Throw _ => st (* console.error *)
          end in
        lintFiles env openTextDocument isCancellationRequested files'
          (S processed) st'
  end.

(** [lintWorkspace()]; [files] is what [findFiles] found. *)
Definition lintWorkspace (env : Env) (files : list string)
  (openTextDocument : string -> Outcome TextDocument)
  (isCancellationRequested : nat -> bool) (st : State)
  : list Notification * State :=
  if negb (enable env) then ([showWarningMessage "yamllint is disabled"], st)
  else if decide (length files = 0%nat)
  then ([showInformationMessage "No YAML files found in workspace"], st)
  else
    let (processed, st') :=
      lintFiles env openTextDocument isCancellationRequested files 0 st in
    ([showInformationMessage ("Linted " +:+ pretty.pretty processed +:+ " YAML files")],
     st').

(** An editor with the two sample documents and a text file. *)
Definition sampleEditor : list EditorDocument :=
  [ {| textDocument := sampleDocument; languageId := "yaml";
       fileName := "/work/a.yaml" |};
    {| textDocument :=
         {| uri := "file:///work/notes.txt"; fsPath := "/work/notes.txt";
            firstLine := units "to do"; moreLines := [] |};
       languageId := "plaintext"; fileName := "/work/notes.txt" |};
    {| textDocument := otherDocument; languageId := "plaintext";
       fileName := "/work/c.yml" |} ].

Definition allTriggers : Triggers :=
  {| lintOnOpen := true; lintOnSave := true; lintOnChange := true |}.

(** The host opens the two sample documents and fails on a third file. *)
Definition sampleOpen (file : string) : Outcome TextDocument :=
  if decide (file = "file:///work/a.yaml") then Ok sampleDocument
  else if decide (file = "file:///work/c.yaml") then Ok otherDocument
  else Throw (ErrorObject "cannot open").

(** ** Linting several documents in a row *)

(** The state after [lint] was called for the documents of a list, one
    after the other. *)
Definition lintAll (env : Env) (documents : list TextDocument) (st : State)
  : State :=
  foldl (fun st document => (lint env document st).2) st documents.

(** The documents that the host opens for a list of files. *)
Definition opened (openTextDocument : string -> Outcome TextDocument)
  (files : list string) : list TextDocument :=
  omap (fun file => match openTextDocument file with
                    | Ok document => Some document
                    | Throw _ => None
                    end) files.

(** The open documents that pass a test, as the provider reads them. *)
Definition passing (test : EditorDocument -> bool)
  (textDocuments : list EditorDocument) : list TextDocument :=
  textDocument <$> filter (fun document => test document = true) textDocuments.

(** * Properties *)

(** Runs the plumbing of a method body. *)
Ltac run :=
  unfold cachedConfig, loadAndCache, YamlLintConfig_fromFile, new_YamlLintConfig,
    newObject, setTimeout, clearTimeout, try, bind, gets, modify, call, ret;
  simpl.

(** ** The mapping of problems to diagnostics *)

Section ProblemToDiagnostic.

Implicit Types (rest lineText : jsstring) (document : TextDocument)
  (problem : LintProblem).

Lemma extendWord_ge rest c : c <= extendWord rest c.
Proof.
  revert c. induction rest as [|x rest IH]; intros c; simpl; [lia|].
  destruct (isWhiteSpace x); [lia|]. specialize (IH (c + 1)). lia.
Qed.

Lemma extendWord_le rest c : extendWord rest c <= c + Z.of_nat (length rest).
Proof.
  revert c. induction rest as [|x rest IH]; intros c; simpl length; simpl extendWord; [lia|].
  destruct (isWhiteSpace x); [lia|]. specialize (IH (c + 1)). lia.
Qed.

Lemma extendWord_word x rest c :
  isWhiteSpace x = false -> c + 1 <= extendWord (x :: rest) c.
Proof. intros Hx. simpl. rewrite Hx. apply extendWord_ge. Qed.

Lemma extendWord_space x rest c :
  isWhiteSpace x = true -> extendWord (x :: rest) c = c.
Proof. intros Hx. simpl. by rewrite Hx. Qed.

(** The loop read literally ends, and where the structural one does. *)
Lemma extendLoop_extendWord lineText rest :
  forall (k fuel : nat),
    drop k lineText = rest ->
    (length rest < fuel)%nat ->
    extendLoop fuel lineText (Z.of_nat k)
    = Some (extendWord rest (Z.of_nat k)).
Proof.
  induction rest as [|x rest IH]; intros k fuel Hdrop Hfuel;
    (destruct fuel as [|fuel]; [simpl in Hfuel; lia|]); simpl.
  - assert (length lineText <= k)%nat as Hk.
    { apply (f_equal length) in Hdrop. rewrite length_drop in Hdrop.
      simpl in Hdrop. lia. }
    destruct (Z.ltb_spec (Z.of_nat k) (Z.of_nat (length lineText))); [lia|done].
  - assert (lineText !! k = Some x) as Hx.
    { rewrite <- (Nat.add_0_r k), <- lookup_drop, Hdrop. done. }
    pose proof (lookup_lt_Some _ _ _ Hx) as Hk.
    destruct (Z.ltb_spec (Z.of_nat k) (Z.of_nat (length lineText))); [|lia].
    rewrite Nat2Z.id, Hx.
    destruct (isWhiteSpace x); simpl; [done|].
    replace (Z.of_nat k + 1) with (Z.of_nat (S k)) by lia.
    apply IH; [|simpl in Hfuel; lia].
    erewrite drop_S in Hdrop by exact Hx. by injection Hdrop.
Qed.

(** The line that is read exists: the index is clamped into the document. *)
Lemma lineAt_clamped document (n : Z) :
  0 <= n ->
  exists lineText,
    lines document !! Z.to_nat (Z.min n (lineCount document - 1)) = Some lineText
    /\ lineAt document (Z.min n (lineCount document - 1)) = Ok lineText.
Proof.
  intros Hn. unfold lineAt.
  assert (1 <= lineCount document) as Hc by (unfold lineCount, lines; simpl; lia).
  set (i := Z.min n (lineCount document - 1)).
  assert (0 <= i < lineCount document) as Hi by (unfold i; lia).
  destruct (lookup_lt_is_Some_2 (lines document) (Z.to_nat i)) as [text Htext].
  { unfold lineCount in Hi. lia. }
  exists text. split; [done|].
  destruct (Z.leb_spec 0 i); [|lia].
  destruct (Z.ltb_spec i (lineCount document)); [|lia].
  simpl. by rewrite Htext.
Qed.

(** The range that the host makes of the numbers of the error diagnostic. *)
Lemma new_Range_origin :
  new_Range 0 0 0 0
  = Ok {| startLine := 0; startCharacter := 0; endLine := 0; endCharacter := 0 |}.
Proof. reflexivity. Qed.

(** The range that the host makes of two columns of one line: the columns
    in order. *)
Lemma new_Range_line (l c e : Z) :
  0 <= l -> 0 <= c -> 0 <= e ->
  new_Range l c l e
  = Ok {| startLine := l; startCharacter := Z.min c e;
          endLine := l; endCharacter := Z.max c e |}.
Proof.
  intros Hl Hc He. unfold new_Range, isBefore.
  destruct (Z.ltb_spec l 0); [lia|]. destruct (Z.ltb_spec c 0); [lia|].
  destruct (Z.ltb_spec e 0); [lia|]. rewrite Z.ltb_irrefl, Z.eqb_refl. simpl.
  destruct (Z.ltb_spec c e).
  - by rewrite Z.min_l, Z.max_r by lia.
  - by rewrite Z.min_r, Z.max_l by lia.
Qed.

Lemma endColumnOn_nonneg lineText (column0 : Z) :
  0 <= column0 -> 0 <= endColumnOn lineText column0.
Proof.
  intros Hc. unfold endColumnOn.
  pose proof (extendWord_ge (drop (Z.to_nat column0) lineText) column0).
  case_decide; lia.
Qed.

(** [problemToDiagnostic] returns, and what it returns. *)
Lemma problemToDiagnostic_returns problem document :
  let line0 := Z.max 0 (line problem - 1) in
  let column0 := Z.max 0 (column problem - 1) in
  exists lineText,
    lines document !! Z.to_nat (Z.min line0 (lineCount document - 1)) = Some lineText
    /\ problemToDiagnostic problem document
       = Ok {| range :=
                 {| startLine := line0;
                    startCharacter := Z.min column0 (endColumnOn lineText column0);
                    endLine := line0;
                    endCharacter := Z.max column0 (endColumnOn lineText column0) |};
               message := desc problem;
               severity := if decide (level problem = "error") then Error else Warning;
               source := Some "yamllint";
               code := codeOf (rule problem) |}.
Proof.
  intros line0 column0.
  destruct (lineAt_clamped document line0) as (lineText & Hlook & Hat);
    [unfold line0; lia|].
  exists lineText. split; [done|].
  unfold problemToDiagnostic. fold line0 column0. rewrite Hat.
  fold (endColumnOn lineText column0).
  rewrite new_Range_line; [done|unfold line0; lia|unfold column0; lia|].
  apply endColumnOn_nonneg. unfold column0. lia.
Qed.

Lemma endColumnOn_inside lineText (column0 : Z) :
  0 <= column0 < Z.of_nat (length lineText) ->
  column0 + 1 <= endColumnOn lineText column0 <= Z.of_nat (length lineText).
Proof.
  intros Hc. unfold endColumnOn.
  pose proof (extendWord_ge (drop (Z.to_nat column0) lineText) column0).
  pose proof (extendWord_le (drop (Z.to_nat column0) lineText) column0) as Hle.
  rewrite length_drop in Hle.
  case_decide; lia.
Qed.

Lemma endColumnOn_space lineText (column0 : Z) c :
  0 <= column0 ->
  lineText !! Z.to_nat column0 = Some c ->
  isWhiteSpace c = true ->
  endColumnOn lineText column0 = column0 + 1.
Proof.
  intros Hc Hlook Hws. unfold endColumnOn.
  pose proof (lookup_lt_Some _ _ _ Hlook).
  erewrite drop_S by exact Hlook. rewrite extendWord_space by done.
  rewrite decide_True by done. lia.
Qed.

Lemma endColumnOn_outside lineText (column0 : Z) :
  Z.of_nat (length lineText) <= column0 ->
  endColumnOn lineText column0 = Z.of_nat (length lineText).
Proof.
  intros Hc. unfold endColumnOn.
  rewrite drop_ge by lia. simpl. rewrite decide_True by done. lia.
Qed.

End ProblemToDiagnostic.

(** C1 (as amended).  [problemToDiagnostic] returns a diagnostic for every
    problem, and its range is at least one character wide unless the start
    column is exactly the end of the scanned line.  When the start column
    lies inside the line, the range starts there and ends inside the line,
    and it is exactly one character wide when the character at the start
    column is white space, so also when the rest of the line is white
    space.  When the start column is the end of the line, the end column
    is clamped to the length of the line and the range is empty.  When the
    start column is past the end of the line, the end column is clamped to
    the length of the line as well, the host puts the two positions in
    order, and the range goes from the end of the line to the start column:
    it is as wide as the start column is past the end, one character only
    when that is one. *)
Theorem range_width_clamped (problem : LintProblem) (document : TextDocument) :
  let line0 := Z.max 0 (line problem - 1) in
  let column0 := Z.max 0 (column problem - 1) in
  exists lineText d,
    lines document !! Z.to_nat (Z.min line0 (lineCount document - 1)) = Some lineText
    /\ problemToDiagnostic problem document = Ok d
    /\ (column0 <> Z.of_nat (length lineText) -> 1 <= width (range d))
    /\ (column0 < Z.of_nat (length lineText) ->
        startCharacter (range d) = column0
        /\ endCharacter (range d) <= Z.of_nat (length lineText))
    /\ (forall c, lineText !! Z.to_nat column0 = Some c ->
                  isWhiteSpace c = true -> width (range d) = 1)
    /\ (Forall (fun c => isWhiteSpace c = true) (drop (Z.to_nat column0) lineText) ->
        column0 < Z.of_nat (length lineText) -> width (range d) = 1)
    /\ (column0 = Z.of_nat (length lineText) ->
        startCharacter (range d) = Z.of_nat (length lineText)
        /\ endCharacter (range d) = Z.of_nat (length lineText)
        /\ width (range d) = 0)
    /\ (Z.of_nat (length lineText) < column0 ->
        startCharacter (range d) = Z.of_nat (length lineText)
        /\ endCharacter (range d) = column0
        /\ width (range d) = column0 - Z.of_nat (length lineText)
        /\ (width (range d) = 1 <-> column0 = Z.of_nat (length lineText) + 1)).
Proof.
  intros line0 column0.
  destruct (problemToDiagnostic_returns problem document)
    as (lineText & Hline & Hret).
  fold line0 column0 in Hline, Hret.
  assert (0 <= column0) as H0 by (unfold column0; lia).
  eexists lineText, _. split; [exact Hline|]. split; [exact Hret|].
  unfold width. simpl.
  assert (forall c, lineText !! Z.to_nat column0 = Some c ->
                    isWhiteSpace c = true ->
                    Z.max column0 (endColumnOn lineText column0)
                    - Z.min column0 (endColumnOn lineText column0) = 1) as Hspace.
  { intros c Hc Hws. rewrite (endColumnOn_space lineText column0 c) by done. lia. }
  split; [|split; [|split; [exact Hspace|split; [|split]]]].
  - intros Hne. destruct (Z.lt_ge_cases column0 (Z.of_nat (length lineText))).
    + pose proof (endColumnOn_inside lineText column0). lia.
    + rewrite endColumnOn_outside by lia. lia.
  - intros Hin. pose proof (endColumnOn_inside lineText column0). lia.
  - intros Hall Hin.
    destruct (lookup_lt_is_Some_2 lineText (Z.to_nat column0)) as [c Hc]; [lia|].
    apply (Hspace c Hc).
    erewrite drop_S in Hall by exact Hc. by inversion Hall.
  - intros Heq. rewrite endColumnOn_outside by lia. lia.
  - intros Hpast. rewrite endColumnOn_outside by lia. lia.
Qed.

(** Counterexample to C1 as stated.  The problem that the engine reports at
    the end of the last line of a file without a final new line (line 1,
    column 11 of a line of 10 characters) gets the empty range
    (0,10)-(0,10): the width is not at least 1.  A problem at column 50 of
    the same line, past its end, gets the range (0,10)-(0,49): the width
    is not exactly 1. *)
Lemma zero_width_at_line_end :
  (exists d,
     problemToDiagnostic noNewLineAtEnd oneLineDocument = Ok d
     /\ range d = {| startLine := 0; startCharacter := 10;
                     endLine := 0; endCharacter := 10 |}
     /\ ~ (1 <= width (range d)))
  /\ (exists d,
        problemToDiagnostic (problemAt 1 50 "error" None) oneLineDocument = Ok d
        /\ range d = {| startLine := 0; startCharacter := 10;
                        endLine := 0; endCharacter := 49 |}
        /\ width (range d) <> 1).
Proof.
  split; eexists; (split; [reflexivity|]); (split; [reflexivity|]);
    unfold width; simpl; lia.
Qed.

Lemma range_width_clamped_witness :
  (exists lineText d,
     lines sampleDocument !! 1%nat = Some lineText
     /\ problemToDiagnostic (problemAt 2 6 "error" (Some "trailing-spaces")) sampleDocument = Ok d
     /\ width (range d) = 1)
  /\ (exists d,
        problemToDiagnostic (problemAt 1 50 "error" None) oneLineDocument = Ok d
        /\ startCharacter (range d) = 10 /\ endCharacter (range d) = 49
        /\ width (range d) = 39).
Proof.
  split.
  - destruct (range_width_clamped (problemAt 2 6 "error" (Some "trailing-spaces"))
                sampleDocument) as (lineText & d & Hline & Hd & _ & _ & Hspace & _).
    exists lineText, d. split; [exact Hline|]. split; [exact Hd|].
    vm_compute in Hline. injection Hline as <-.
    apply (Hspace 32%N); reflexivity.
  - destruct (range_width_clamped (problemAt 1 50 "error" None) oneLineDocument)
      as (lineText & d & Hline & Hd & _ & _ & _ & _ & _ & Hpast).
    exists d. split; [exact Hd|].
    vm_compute in Hline. injection Hline as <-.
    destruct Hpast as (Hs & He & Hw & _); [vm_compute; reflexivity|].
    split; [exact Hs|]. split; [exact He|]. exact Hw.
Defined.

(** C8 (as amended).  For every problem with 1-based line [L] and column
    [C], [problemToDiagnostic] returns a diagnostic whose range is on the
    line [max 0 (L-1)] and starts at the column [max 0 (C-1)] whenever that
    column is not past the end of the scanned line, so at (0,0) for line 1,
    column 1; when the column is past the end of the scanned line, the
    range starts at the length of that line (the host puts the two
    positions in order) and ends at [max 0 (C-1)].  The severity is Error
    exactly when the level is "error" and Warning for every other level;
    the code is set only when the problem carries a rule, and then it is
    that rule. *)
Theorem start_severity_code (problem : LintProblem) (document : TextDocument) :
  let line0 := Z.max 0 (line problem - 1) in
  let column0 := Z.max 0 (column problem - 1) in
  exists lineText d,
    lines document !! Z.to_nat (Z.min line0 (lineCount document - 1)) = Some lineText
    /\ problemToDiagnostic problem document = Ok d
    /\ startLine (range d) = line0
    /\ startCharacter (range d) = Z.min column0 (Z.of_nat (length lineText))
    /\ (column0 <= Z.of_nat (length lineText) -> startCharacter (range d) = column0)
    /\ (Z.of_nat (length lineText) < column0 ->
        startCharacter (range d) = Z.of_nat (length lineText)
        /\ endCharacter (range d) = column0)
    /\ (line problem = 1 -> column problem = 1 ->
        startLine (range d) = 0 /\ startCharacter (range d) = 0)
    /\ (severity d = Error <-> level problem = "error")
    /\ (level problem <> "error" -> severity d = Warning)
    /\ (forall name, code d = Some name -> rule problem = Some name)
    /\ (forall name, rule problem = Some name -> name <> "" -> code d = Some name)
    /\ (rule problem = None -> code d = None)
    /\ message d = desc problem
    /\ source d = Some "yamllint".
Proof.
  intros line0 column0.
  destruct (problemToDiagnostic_returns problem document) as (lineText & Hline & Hret).
  fold line0 column0 in Hline, Hret.
  assert (0 <= column0) as H0 by (unfold column0; lia).
  assert (Z.min column0 (endColumnOn lineText column0)
          = Z.min column0 (Z.of_nat (length lineText))) as Hstart.
  { destruct (Z.lt_ge_cases column0 (Z.of_nat (length lineText))).
    - pose proof (endColumnOn_inside lineText column0). lia.
    - rewrite endColumnOn_outside by lia. done. }
  eexists lineText, _. split; [exact Hline|]. split; [exact Hret|]. simpl.
  split; [done|]. split; [exact Hstart|].
  split; [intros; lia|].
  split; [intros Hpast; rewrite endColumnOn_outside by lia; lia|].
  split; [intros HL HC; unfold line0; split; [lia|]; rewrite Hstart; unfold column0; lia|].
  split; [case_decide; split; done|].
  split; [intros Hne; by rewrite decide_False|].
  unfold codeOf. destruct (rule problem) as [name'|]; repeat split; try done.
  - intros name. destruct (decide (name' = "")); congruence.
  - intros name [= ->] Hne. by rewrite decide_False.
Qed.

(** Counterexample to C8 as stated.  A problem at line 1, column 13 of a
    document whose only line has 10 characters: the range does not start at
    column [max 0 (13-1) = 12] but at column 10, the end of the line, and
    ends at column 12.  The same for the problem at line 9, column 3 of
    the three-line document, whose scanned (last) line is empty: the range
    is (8,0)-(8,2). *)
Lemma start_past_line_end :
  (exists d,
     problemToDiagnostic (problemAt 1 13 "error" None) oneLineDocument = Ok d
     /\ range d = {| startLine := 0; startCharacter := 10;
                     endLine := 0; endCharacter := 12 |}
     /\ startCharacter (range d) <> Z.max 0 (column (problemAt 1 13 "error" None) - 1))
  /\ (exists d,
        problemToDiagnostic (problemAt 9 3 "warning" None) sampleDocument = Ok d
        /\ range d = {| startLine := 8; startCharacter := 0;
                        endLine := 8; endCharacter := 2 |}
        /\ startCharacter (range d) <> Z.max 0 (column (problemAt 9 3 "warning" None) - 1)).
Proof.
  split; eexists; (split; [reflexivity|]); (split; [reflexivity|]); simpl; lia.
Qed.

Lemma start_severity_code_witness :
  exists d,
    problemToDiagnostic (problemAt 1 13 "error" (Some "colons")) oneLineDocument = Ok d
    /\ startLine (range d) = 0
    /\ startCharacter (range d) = 10 /\ endCharacter (range d) = 12
    /\ severity d = Error /\ code d = Some "colons".
Proof.
  destruct (start_severity_code (problemAt 1 13 "error" (Some "colons")) oneLineDocument)
    as (lineText & d & Hline & Hd & Hl & _ & _ & Hpast & _ & Hsev & _ & _ & Hcode & _).
  exists d. split; [exact Hd|].
  vm_compute in Hline. injection Hline as <-.
  destruct Hpast as [Hs He]; [vm_compute; reflexivity|].
  split; [exact Hl|]. split; [exact Hs|]. split; [exact He|].
  split; [apply Hsev; reflexivity|]. apply Hcode; [reflexivity|done].
Defined.

(** C10.  The line whose text is scanned is the line of the document at
    index [min (max 0 (L-1)) (lineCount-1)], which is [min (L-1) (lineCount-1)]
    for a line number [L >= 1]; the index is in bounds, [lineAt] does not
    throw and the mapping returns.  The range is on the line [max 0 (L-1)],
    which is not clamped: for a problem whose line exceeds the line count,
    the range lies beyond the last line of the document and its columns
    are computed from the text of the last line: they are the start column
    and the end column found on that text, in order. *)
Theorem scanned_line_clamped (problem : LintProblem) (document : TextDocument) :
  let line0 := Z.max 0 (line problem - 1) in
  let column0 := Z.max 0 (column problem - 1) in
  let scanned := Z.min line0 (lineCount document - 1) in
  exists lineText d,
    0 <= scanned < lineCount document
    /\ (1 <= line problem ->
        scanned = Z.min (line problem - 1) (lineCount document - 1))
    /\ lines document !! Z.to_nat scanned = Some lineText
    /\ lineAt document scanned = Ok lineText
    /\ problemToDiagnostic problem document = Ok d
    /\ startLine (range d) = line0 /\ endLine (range d) = line0
    /\ startCharacter (range d) = Z.min column0 (endColumnOn lineText column0)
    /\ endCharacter (range d) = Z.max column0 (endColumnOn lineText column0)
    /\ (column0 <= Z.of_nat (length lineText) ->
        startCharacter (range d) = column0
        /\ endCharacter (range d) = endColumnOn lineText column0)
    /\ (lineCount document < line problem ->
        lineCount document - 1 < startLine (range d)
        /\ last (lines document) = Some lineText).
Proof.
  intros line0 column0 scanned.
  assert (1 <= lineCount document) as Hc by (unfold lineCount, lines; simpl; lia).
  destruct (lineAt_clamped document line0) as (lineText & Hlook & Hat);
    [unfold line0; lia|].
  fold scanned in Hlook, Hat.
  destruct (problemToDiagnostic_returns problem document) as (lineText' & Hlook' & Hret).
  fold line0 column0 scanned in Hlook', Hret.
  assert (lineText' = lineText) as -> by congruence.
  assert (0 <= column0) as H0 by (unfold column0; lia).
  eexists lineText, _.
  split; [unfold scanned, line0; lia|].
  split; [intros HL; unfold scanned, line0; lia|].
  split; [done|]. split; [done|]. split; [exact Hret|]. simpl.
  split; [done|]. split; [done|]. split; [done|]. split; [done|].
  split.
  - intros Hin. destruct (Z.lt_ge_cases column0 (Z.of_nat (length lineText))).
    + pose proof (endColumnOn_inside lineText column0). lia.
    + rewrite endColumnOn_outside by lia. lia.
  - intros Hbeyond. split.
    + unfold line0. lia.
    + rewrite last_lookup, <- Hlook. f_equal.
      unfold scanned, line0, lineCount in *. lia.
Qed.

Lemma scanned_line_clamped_witness :
  exists lineText d,
    problemToDiagnostic (problemAt 9 3 "warning" None) sampleDocument = Ok d
    /\ last (lines sampleDocument) = Some lineText
    /\ lineCount sampleDocument - 1 < startLine (range d).
Proof.
  destruct (scanned_line_clamped (problemAt 9 3 "warning" None) sampleDocument)
    as (lineText & d & _ & _ & _ & _ & Hd & _ & _ & _ & _ & _ & Hbeyond).
  exists lineText, d. split; [exact Hd|].
  destruct Hbeyond as [Hb Hl]; [vm_compute; reflexivity|]. split; [exact Hl|exact Hb].
Defined.

(** ** The resolution of the configuration *)

Section Resolution.

Implicit Types (env : Env) (st : State) (document : TextDocument)
  (path key : string).

(** The block for the user-specified path is the first source of the
    specification. *)
Lemma userSpecified_fromSource env workspacePath st :
  userSpecified env workspacePath st =
  if decide (config env = "") then (Ok None, st)
  else match fromSource env false (resolvedPath env workspacePath) st with
       | Some (cfg, st') => (Ok (Some cfg), st')
       | None => (Ok None, st)
       end.
Proof.
  unfold userSpecified, fromSource. fold (resolvedPath env workspacePath).
  case_decide; [done|]. run.
  destruct (configCache st !! resolvedPath env workspacePath) as [[cached|]|];
    simpl; try done;
    destruct (fromFile env (resolvedPath env workspacePath)); done.
Qed.

(** One turn of the loop over the candidate names. *)
Lemma searchWorkspace_cons env workspacePath name names st :
  searchWorkspace env workspacePath (name :: names) st =
  match fromSource env true (path_join env workspacePath name) st with
  | Some (cfg, st') => (Ok (Some cfg), st')
  | None => searchWorkspace env workspacePath names st
  end.
Proof.
  simpl. unfold fromSource. run.
  destruct (configCache st !! path_join env workspacePath name) as [[cached|]|];
    simpl; try done;
    (destruct (existsSync env (path_join env workspacePath name)); simpl; [|done]);
    destruct (fromFile env (path_join env workspacePath name)); done.
Qed.

(** The loop is the search of the first candidate that succeeds. *)
Lemma searchWorkspace_firstCandidate env workspacePath names st :
  searchWorkspace env workspacePath names st =
  match firstCandidate env (path_join env workspacePath <$> names) st with
  | Some (cfg, st') => (Ok (Some cfg), st')
  | None => (Ok None, st)
  end.
Proof.
  induction names as [|name names IH]; [done|].
  rewrite searchWorkspace_cons. simpl.
  destruct (fromSource env true (path_join env workspacePath name) st)
    as [[cfg st']|]; done.
Qed.

Lemma defaultConfiguration_fromDefault env st :
  defaultConfiguration env st = fromDefault env st.
Proof.
  unfold defaultConfiguration, fromDefault. run.
  destruct (configCache st !! "__default__") as [[cached|]|]; simpl; try done;
    destruct (parseConfig env DEFAULT_CONFIG); done.
Qed.

(** [getYamlLintConfig] as the resolution order of the specification. *)
Lemma getYamlLintConfig_order env document st :
  let workspacePath := workspacePathOf env document in
  getYamlLintConfig env document st =
  match (if decide (config env = "") then None
         else fromSource env false (resolvedPath env workspacePath) st) with
  | Some (cfg, st') => (Ok cfg, st')
  | None =>
      match firstCandidate env (candidates env workspacePath) st with
      | Some (cfg, st') => (Ok cfg, st')
      | None => fromDefault env st
      end
  end.
Proof.
  intros workspacePath. unfold getYamlLintConfig. fold workspacePath.
  unfold bind at 1. rewrite userSpecified_fromSource.
  assert (forall o : option (YamlLintConfig * State),
    match (match o with
           | Some (cfg, st') => (Ok (Some cfg), st')
           | None => (Ok None, st)
           end) with
    | (Ok (Some cfg), st') => (Ok cfg, st')
    | (Ok None, st') =>
        (found <- match workspacePath with
                  | Some w => searchWorkspace env w CONFIG_FILE_NAMES
                  | None => ret None
                  end ;;
         match found with
         | Some cfg => ret cfg
         | None => defaultConfiguration env
         end) st'
    | (Throw e, st') => (Throw e, st')
    end
    = match o with
      | Some (cfg, st') => (Ok cfg, st')
      | None =>
          match firstCandidate env (candidates env workspacePath) st with
          | Some (cfg, st') => (Ok cfg, st')
          | None => fromDefault env st
          end
      end) as Hrest.
  { intros [[cfg st']|]; [done|].
    unfold bind, candidates. destruct workspacePath as [w|].
    - rewrite searchWorkspace_firstCandidate.
      destruct (firstCandidate env _ st) as [[cfg st']|]; [done|].
      apply defaultConfiguration_fromDefault.
    - unfold ret. apply defaultConfiguration_fromDefault. }
  case_decide.
  - specialize (Hrest None). simpl in Hrest. unfold ret in *. exact Hrest.
  - specialize (Hrest (fromSource env false (resolvedPath env workspacePath) st)).
    unfold ret in *.
    destruct (fromSource env false (resolvedPath env workspacePath) st)
      as [[cfg st']|]; exact Hrest.
Qed.

Lemma stored_lookup key cfg st :
  configCache (stored key cfg st) !! key = Some (Some cfg).
Proof. unfold stored. simpl. apply lookup_insert_eq. Qed.

Lemma stored_lookup_ne key key' cfg st :
  key <> key' ->
  configCache (stored key cfg st) !! key' = configCache st !! key'.
Proof. intros Hne. unfold stored. simpl. by apply lookup_insert_ne. Qed.

Lemma fromSource_hit env mustExist path cfg st :
  configCache st !! path = Some (Some cfg) ->
  fromSource env mustExist path st = Some (cfg, st).
Proof. intros Hhit. unfold fromSource. by rewrite Hhit. Qed.

Lemma fromSource_resolvedAt env mustExist path cfg st st' :
  fromSource env mustExist path st = Some (cfg, st') ->
  resolvedAt env path cfg st st'.
Proof.
  unfold fromSource, resolvedAt.
  destruct (configCache st !! path) as [[cached|]|] eqn:Hcache.
  - intros [= <- <-]. auto.
  - destruct (mustExist && negb (existsSync env path)); [done|].
    destruct (fromFile env path) eqn:Hload; [|done].
    intros [= <- <-]. split; [apply stored_lookup|]. right.
    split; [done|]. split; [done|]. by left.
  - destruct (mustExist && negb (existsSync env path)); [done|].
    destruct (fromFile env path) eqn:Hload; [|done].
    intros [= <- <-]. split; [apply stored_lookup|]. right.
    split; [done|]. split; [done|]. by left.
Qed.

(** A source that succeeded succeeds again with the same object, from the
    cache. *)
Lemma fromSource_again env mustExist path cfg st st' :
  fromSource env mustExist path st = Some (cfg, st') ->
  fromSource env mustExist path st' = Some (cfg, st').
Proof.
  intros H. apply fromSource_resolvedAt in H as [Hhit _].
  by apply fromSource_hit.
Qed.

(** A source that failed fails again after a resolution, unless its path
    is the key under which that resolution cached its result. *)
Lemma fromSource_stable env mustExist path key cfg st st' :
  resolvedAt env key cfg st st' ->
  fromSource env mustExist path st = None ->
  fromSource env mustExist path st' = None
  \/ fromSource env mustExist path st' = Some (cfg, st').
Proof.
  intros [Hhit [->|(_ & -> & _)]] Hnone; [by left|].
  destruct (decide (key = path)) as [<-|Hne].
  - right. apply fromSource_hit, stored_lookup.
  - left. revert Hnone. unfold fromSource.
    rewrite stored_lookup_ne by done.
    destruct (configCache st !! path) as [[cached|]|]; [done| |];
      (destruct (mustExist && negb (existsSync env path)); [done|]);
      destruct (fromFile env path); done.
Qed.

Lemma firstCandidate_resolvedAt env paths cfg st st' :
  firstCandidate env paths st = Some (cfg, st') ->
  exists path, path ∈ paths /\ resolvedAt env path cfg st st'.
Proof.
  induction paths as [|path paths IH]; [done|]. simpl.
  destruct (fromSource env true path st) as [[cfg0 st0]|] eqn:Hsrc.
  - intros [= <- <-]. exists path. split; [left|].
    by eapply fromSource_resolvedAt.
  - intros H. destruct (IH H) as (path' & Hin & Hres).
    exists path'. split; [by right|done].
Qed.

Lemma firstCandidate_again env paths cfg st st' :
  firstCandidate env paths st = Some (cfg, st') ->
  firstCandidate env paths st' = Some (cfg, st').
Proof.
  induction paths as [|path paths IH]; [done|]. simpl.
  destruct (fromSource env true path st) as [[cfg0 st0]|] eqn:Hsrc.
  - intros [= <- <-]. by rewrite (fromSource_again _ _ _ _ _ _ Hsrc).
  - intros H. destruct (firstCandidate_resolvedAt _ _ _ _ _ H) as (key & _ & Hres).
    destruct (fromSource_stable _ _ _ _ _ _ _ Hres Hsrc) as [-> | ->]; [|done].
    by apply IH.
Qed.

Lemma firstCandidate_stable env paths key cfg st st' :
  resolvedAt env key cfg st st' ->
  firstCandidate env paths st = None ->
  firstCandidate env paths st' = None
  \/ firstCandidate env paths st' = Some (cfg, st').
Proof.
  intros Hres. induction paths as [|path paths IH]; [by left|]. simpl.
  destruct (fromSource env true path st) as [[cfg0 st0]|] eqn:Hsrc; [done|].
  intros Hnone.
  destruct (fromSource_stable _ _ _ _ _ _ _ Hres Hsrc) as [-> | ->]; [|by right].
  by apply IH.
Qed.

Lemma fromDefault_resolvedAt env cfg st st' :
  fromDefault env st = (Ok cfg, st') ->
  resolvedAt env "__default__" cfg st st'.
Proof.
  unfold fromDefault, resolvedAt.
  destruct (configCache st !! "__default__") as [[cached|]|] eqn:Hcache.
  - intros [= <- <-]. auto.
  - destruct (parseConfig env DEFAULT_CONFIG) eqn:Hparse; [|done].
    intros [= <- <-]. split; [apply stored_lookup|]. right.
    split; [done|]. split; [done|]. by right.
  - destruct (parseConfig env DEFAULT_CONFIG) eqn:Hparse; [|done].
    intros [= <- <-]. split; [apply stored_lookup|]. right.
    split; [done|]. split; [done|]. by right.
Qed.

Lemma fromDefault_again env cfg st st' :
  fromDefault env st = (Ok cfg, st') ->
  fromDefault env st' = (Ok cfg, st').
Proof.
  intros H. apply fromDefault_resolvedAt in H as [Hhit _].
  unfold fromDefault. by rewrite Hhit.
Qed.

(** What a resolution writes: nothing, or one newly constructed object,
    the one it returns, under one key.  A failure writes nothing. *)
Lemma getYamlLintConfig_writes env document st o st' :
  getYamlLintConfig env document st = (o, st') ->
  st' = st
  \/ exists key cfg,
       o = Ok cfg /\ ref cfg = nextObject st
       /\ st' = stored key cfg st /\ loaded env key (rules cfg).
Proof.
  rewrite getYamlLintConfig_order.
  set (workspacePath := workspacePathOf env document).
  assert (forall key cfg st1, resolvedAt env key cfg st st1 ->
            st1 = st \/ exists key cfg0,
              Ok cfg = Ok cfg0 /\ ref cfg0 = nextObject st
              /\ st1 = stored key cfg0 st /\ loaded env key (rules cfg0)) as Hres.
  { intros key cfg st1 [_ [->|(Href & -> & Hl)]]; [by left|]. right.
    exists key, cfg. done. }
  destruct (if decide (config env = "") then None
            else fromSource env false (resolvedPath env workspacePath) st)
    as [[cfg st1]|] eqn:Huser.
  { intros [= <- <-]. case_decide; [done|].
    eapply Hres, fromSource_resolvedAt, Huser. }
  destruct (firstCandidate env (candidates env workspacePath) st)
    as [[cfg st1]|] eqn:Hcand.
  { intros [= <- <-].
    destruct (firstCandidate_resolvedAt _ _ _ _ _ Hcand) as (key & _ & Hk).
    eapply Hres, Hk. }
  destruct o as [cfg|e]; intros Hdef.
  - eapply Hres, fromDefault_resolvedAt, Hdef.
  - left. revert Hdef. unfold fromDefault.
    destruct (configCache st !! "__default__") as [[cached|]|]; [done| |];
      destruct (parseConfig env DEFAULT_CONFIG); congruence.
Qed.

(** A resolution that returned returns the same object when it is run
    again in the same surroundings, and writes nothing then. *)
Lemma getYamlLintConfig_again env document st cfg st' :
  getYamlLintConfig env document st = (Ok cfg, st') ->
  getYamlLintConfig env document st' = (Ok cfg, st').
Proof.
  rewrite !getYamlLintConfig_order.
  set (workspacePath := workspacePathOf env document).
  destruct (decide (config env = "")) as [Hempty|Hset].
  - destruct (firstCandidate env (candidates env workspacePath) st)
      as [[cfg1 st1]|] eqn:Hcand.
    + intros [= <- <-]. by rewrite (firstCandidate_again _ _ _ _ _ Hcand).
    + intros Hdef. pose proof (fromDefault_resolvedAt _ _ _ _ Hdef) as Hres.
      destruct (firstCandidate_stable _ _ _ _ _ _ Hres Hcand) as [-> | ->];
        [|done].
      by apply (fromDefault_again _ _ _ _ Hdef).
  - destruct (fromSource env false (resolvedPath env workspacePath) st)
      as [[cfg1 st1]|] eqn:Huser.
    + intros [= <- <-]. by rewrite (fromSource_again _ _ _ _ _ _ Huser).
    + destruct (firstCandidate env (candidates env workspacePath) st)
        as [[cfg1 st1]|] eqn:Hcand.
      * intros [= <- <-].
        destruct (firstCandidate_resolvedAt _ _ _ _ _ Hcand) as (key & _ & Hres).
        destruct (fromSource_stable _ _ _ _ _ _ _ Hres Huser) as [-> | ->];
          [|done].
        by rewrite (firstCandidate_again _ _ _ _ _ Hcand).
      * intros Hdef. pose proof (fromDefault_resolvedAt _ _ _ _ Hdef) as Hres.
        destruct (fromSource_stable _ _ _ _ _ _ _ Hres Huser) as [-> | ->];
          [|done].
        destruct (firstCandidate_stable _ _ _ _ _ _ Hres Hcand) as [-> | ->];
          [|done].
        by apply (fromDefault_again _ _ _ _ Hdef).
Qed.

End Resolution.


(** A cold source succeeds exactly when its file (which for a candidate
    must exist) loads and parses. *)
Lemma fromSource_cold (env : Env) (mustExist : bool) (path : string) (st : State) :
  configCache st !! path = None ->
  fromSource env mustExist path st = None
  <-> (mustExist = true /\ existsSync env path = false)
      \/ exists e, fromFile env path = Throw e.
Proof.
  intros Hcold. unfold fromSource. rewrite Hcold.
  destruct mustExist, (existsSync env path), (fromFile env path) as [r|e];
    simpl; split; try done; eauto; intros [[??]|[??]]; done.
Qed.

(** In the sample workspace the third candidate wins. *)
Lemma sample_resolution :
  getYamlLintConfig sampleEnv sampleDocument (constructed sampleEnv)
  = (Ok {| ref := 0; rules := "rules of /work/.yamllint.yml" |},
     stored "/work/.yamllint.yml"
       {| ref := 0; rules := "rules of /work/.yamllint.yml" |}
       (constructed sampleEnv)).
Proof. vm_compute. reflexivity. Qed.


(** ** The invariants under resolution *)

Lemma invariant_stored (key : string) (cfg : YamlLintConfig) (st : State) :
  invariant st -> ref cfg = nextObject st -> invariant (stored key cfg st).
Proof.
  intros [] Href. split; simpl; try done.
  intros key' cached. destruct (decide (key = key')) as [<-|Hne].
  - rewrite lookup_insert_eq. intros [= <-]. lia.
  - rewrite lookup_insert_ne by done. intros Hc.
    pose proof (cached_given0 _ _ Hc). lia.
Qed.

Lemma getYamlLintConfig_invariant (env : Env) (document : TextDocument)
    (st : State) o st' :
  getYamlLintConfig env document st = (o, st') ->
  invariant st -> invariant st'.
Proof.
  intros Hrun Hinv.
  destruct (getYamlLintConfig_writes _ _ _ _ _ Hrun)
    as [->|(key & cfg & _ & Href & -> & _)]; [done|].
  by apply invariant_stored.
Qed.

(** On an empty cache a resolution returns a newly constructed object. *)
Lemma getYamlLintConfig_fresh (env : Env) (document : TextDocument)
    (st : State) cfg st' :
  configCache st = ∅ ->
  getYamlLintConfig env document st = (Ok cfg, st') ->
  ref cfg = nextObject st.
Proof.
  intros Hempty. rewrite getYamlLintConfig_order.
  set (workspacePath := workspacePathOf env document).
  assert (forall key cfg0 st1, resolvedAt env key cfg0 st st1 ->
            ref cfg0 = nextObject st) as Hres.
  { intros key cfg0 st1 [Hhit [->|(Href & _)]]; [|done].
    rewrite Hempty, lookup_empty in Hhit. done. }
  destruct (if decide (config env = "") then None
            else fromSource env false (resolvedPath env workspacePath) st)
    as [[cfg1 st1]|] eqn:Huser.
  { intros [= <- <-]. case_decide; [done|].
    eapply Hres, fromSource_resolvedAt, Huser. }
  destruct (firstCandidate env (candidates env workspacePath) st)
    as [[cfg1 st1]|] eqn:Hcand.
  { intros [= <- <-].
    destruct (firstCandidate_resolvedAt _ _ _ _ _ Hcand) as (key & _ & Hk).
    eapply Hres, Hk. }
  intros Hdef. eapply Hres, fromDefault_resolvedAt, Hdef.
Qed.

Lemma constructed_invariant (env : Env) : invariant (constructed env).
Proof.
  split; unfold constructed; simpl; intros *;
    rewrite ?lookup_empty; try done.
  all: try (by intros [? ?]).
  all: by intros ?%elem_of_nil.
Qed.

(** C5.  Two config resolutions for the same document, or for two
    documents of the same workspace folder, in the same surroundings and
    with no settings change between them, return the identical config
    object: the second returns the object of the first (the same [ref],
    not only equal rules) and constructs nothing.  The object is in the
    cache; when every source failed it is the built-in default, cached
    under the sentinel key [__default__].  A settings change
    ([updateConfiguration]) empties the cache, and the next resolution
    returns a newly constructed object, not the one returned before. *)
Theorem cache_reuse (env : Env) (document : TextDocument) (st : State)
    (cfg : YamlLintConfig) (st1 : State) :
  getYamlLintConfig env document st = (Ok cfg, st1) ->
  let workspacePath := workspacePathOf env document in
  getYamlLintConfig env document st1 = (Ok cfg, st1)
  /\ (forall document',
        workspacePathOf env document' = workspacePath ->
        getYamlLintConfig env document' st1 = (Ok cfg, st1))
  /\ (exists key, configCache st1 !! key = Some (Some cfg))
  /\ ((config env = ""
       \/ fromSource env false (resolvedPath env workspacePath) st = None) ->
      firstCandidate env (candidates env workspacePath) st = None ->
      configCache st1 !! "__default__" = Some (Some cfg))
  /\ (forall env', configCache (updateConfiguration env' st1).2 = ∅)
  /\ (forall env' env'' cfg' st2,
        invariant st ->
        getYamlLintConfig env'' document (updateConfiguration env' st1).2
        = (Ok cfg', st2) ->
        ref cfg' = nextObject st1 /\ ref cfg' <> ref cfg).
Proof.
  intros Hrun workspacePath.
  assert (exists key, configCache st1 !! key = Some (Some cfg)) as Hcached.
  { revert Hrun. rewrite getYamlLintConfig_order. fold workspacePath.
    destruct (if decide (config env = "") then None
              else fromSource env false (resolvedPath env workspacePath) st)
      as [[cfg1 st1']|] eqn:Huser.
    { intros [= <- <-]. case_decide; [done|].
      apply fromSource_resolvedAt in Huser as [Hhit _]. eauto. }
    destruct (firstCandidate env (candidates env workspacePath) st)
      as [[cfg1 st1']|] eqn:Hcand.
    { intros [= <- <-].
      destruct (firstCandidate_resolvedAt _ _ _ _ _ Hcand) as (key & _ & Hhit & _).
      eauto. }
    intros Hdef. apply fromDefault_resolvedAt in Hdef as [Hhit _]. eauto. }
  split; [by apply (getYamlLintConfig_again _ _ _ _ _ Hrun)|].
  split.
  { intros document' Hsame.
    pose proof (getYamlLintConfig_again _ _ _ _ _ Hrun) as Hagain.
    rewrite getYamlLintConfig_order in Hagain.
    rewrite getYamlLintConfig_order. cbv zeta in *.
    fold workspacePath in Hagain. by rewrite Hsame. }
  split; [done|].
  split.
  { intros Hfails Hnone. revert Hrun.
    rewrite getYamlLintConfig_order. fold workspacePath.
    replace (if decide (config env = "") then None
             else fromSource env false (resolvedPath env workspacePath) st)
      with (@None (YamlLintConfig * State))
      by (destruct Hfails as [Hf|Hf]; case_decide; done).
    rewrite Hnone. intros Hdef.
    by apply fromDefault_resolvedAt in Hdef as [Hhit _]. }
  split; [done|].
  intros env' env'' cfg' st2 Hinv Hnext.
  apply getYamlLintConfig_fresh in Hnext; [|done].
  simpl in Hnext. split; [done|].
  pose proof (getYamlLintConfig_invariant _ _ _ _ _ Hrun Hinv) as [].
  destruct Hcached as [key Hkey].
  pose proof (cached_given0 _ _ Hkey). lia.
Qed.

Lemma cache_reuse_witness :
  exists cfg st1,
    getYamlLintConfig sampleEnv sampleDocument (constructed sampleEnv) = (Ok cfg, st1)
    /\ getYamlLintConfig sampleEnv sampleDocument st1 = (Ok cfg, st1)
    /\ configCache (updateConfiguration sampleEnv st1).2 = ∅.
Proof.
  eexists _, _. split; [exact sample_resolution|].
  destruct (cache_reuse _ _ _ _ _ sample_resolution)
    as (Hagain & _ & _ & _ & Hclear & _).
  split; [exact Hagain|apply Hclear].
Defined.

(** A failed load leaves the entry of its path alone, unless the path is
    the sentinel key of the default. *)
Lemma failed_load_unchanged (env : Env) (document : TextDocument) (st : State)
    o st' (path : string) e :
  getYamlLintConfig env document st = (o, st') ->
  fromFile env path = Throw e ->
  path <> "__default__" ->
  configCache st' !! path = configCache st !! path.
Proof.
  intros Hrun Hfail Hne.
  destruct (getYamlLintConfig_writes _ _ _ _ _ Hrun)
    as [->|(key & cfg & _ & _ & -> & Hloaded)]; [done|].
  apply stored_lookup_ne. intros <-.
  destruct Hloaded as [Hok|[Hkey _]]; congruence.
Qed.

(** C9, at the input where the code departs from it.  With no workspace
    folder and the setting [yamllint.config] = [__default__], the load of
    the user-specified path [__default__] fails, and yet the cache entry of
    that key changes from absent to the built-in default; a later
    resolution, when the file [__default__] exists and would load, returns
    that default from the cache and does not attempt the load. *)
Theorem sentinel_key_collision :
  exists dflt st1,
    resolvedPath collidingEnv (workspacePathOf collidingEnv oneLineDocument)
    = "__default__"
    /\ fromFile collidingEnv "__default__" = Throw (ENOENT "__default__")
    /\ configCache (constructed collidingEnv) !! "__default__" = None
    /\ getYamlLintConfig collidingEnv oneLineDocument (constructed collidingEnv)
       = (Ok dflt, st1)
    /\ configCache st1 !! "__default__" = Some (Some dflt)
    /\ rules dflt = DEFAULT_CONFIG
    /\ fromFile collidingEnvLater "__default__" = Ok "rules of the file __default__"
    /\ getYamlLintConfig collidingEnvLater oneLineDocument st1 = (Ok dflt, st1).
Proof.
  eexists _, _. split; [reflexivity|]. split; [reflexivity|].
  split; [reflexivity|]. split; [vm_compute; reflexivity|].
  split; [vm_compute; reflexivity|]. split; [reflexivity|].
  split; [reflexivity|]. vm_compute. reflexivity.
Qed.

(** ** The lint pass *)

Section LintPass.

Implicit Types (env : Env) (st : State) (document : TextDocument).

(** The mapping of the problems of a pass does not throw. *)
Lemma mapM_problemToDiagnostic document (problems : list LintProblem) st :
  exists diagnostics,
    mapM (fun problem => call (problemToDiagnostic problem document)) problems st
    = (Ok diagnostics, st)
    /\ Forall2 (fun problem d => problemToDiagnostic problem document = Ok d)
         problems diagnostics.
Proof.
  induction problems as [|problem problems (diagnostics & Hrun & Hall)].
  - exists []. split; [done|constructor].
  - destruct (problemToDiagnostic_returns problem document) as (lineText & _ & Hd).
    eexists (_ :: diagnostics). split.
    + simpl. unfold bind, call at 1. rewrite Hd, Hrun. done.
    + constructor; [exact Hd|done].
Qed.

(** The [try] block of [lint], step by step. *)
Lemma lintBody_steps env document st :
  lintBody env document st =
  match getYamlLintConfig env document st with
  | (Throw e, st1) => (Throw e, st1)
  | (Ok yamlConfig, st1) =>
      match runAll env (getText document) yamlConfig (fsPath document) with
      | Throw e => (Throw e, st1)
      | Ok problems =>
          match mapM (fun problem => call (problemToDiagnostic problem document))
                  problems st1 with
          | (Ok diagnostics, st2) =>
              (Ok tt, withDiagnostics (insert (uri document) diagnostics) st2)
          | (Throw e, st2) => (Throw e, st2)
          end
      end
  end.
Proof.
  unfold lintBody. unfold bind at 1.
  destruct (getYamlLintConfig env document st) as [[yamlConfig|e] st1]; [|done].
  unfold bind at 1, call at 1.
  destruct (runAll env (getText document) yamlConfig (fsPath document));
    [|done].
  unfold bind, modify. by destruct (mapM _ _ st1) as [[?|?] ?].
Qed.

Lemma lintBody_publishes env document st yamlConfig st1 problems :
  getYamlLintConfig env document st = (Ok yamlConfig, st1) ->
  runAll env (getText document) yamlConfig (fsPath document) = Ok problems ->
  exists diagnostics,
    Forall2 (fun problem d => problemToDiagnostic problem document = Ok d)
      problems diagnostics
    /\ lintBody env document st
       = (Ok tt, withDiagnostics (insert (uri document) diagnostics) st1).
Proof.
  intros Hcfg Hrun. rewrite lintBody_steps, Hcfg, Hrun.
  destruct (mapM_problemToDiagnostic document problems st1)
    as (diagnostics & -> & Hall).
  by exists diagnostics.
Qed.

Lemma clear_returns document st :
  clear document st =
  (Ok tt,
   match debounceTimers st !! uri document with
   | Some timer =>
       withDebounceTimers (delete (uri document))
         (withTimers (delete timer)
            (withDiagnostics (delete (uri document)) st))
   | None => withDiagnostics (delete (uri document)) st
   end).
Proof.
  unfold clear. run. by destruct (debounceTimers st !! uri document).
Qed.

Lemma lint_returns env document st : (lint env document st).1 = Ok tt.
Proof.
  unfold lint. destruct (enable env); simpl.
  - unfold try, modify. by destruct (lintBody env document st) as [[[]|e] st1].
  - by rewrite clear_returns.
Qed.

End LintPass.

(** C4.  [lint] never throws.  With linting enabled, whenever its [try]
    block fails (the resolution of the configuration throws, the engine
    throws, the mapping throws), what is published for the document is
    exactly one diagnostic, of severity Error, with the range
    (0,0)-(0,0), whose message is [yamllint error: ] followed by the
    message of the failure: the [message] of a thrown [Error] object, the
    string conversion of any other thrown value. *)
Theorem lint_failure_visible (env : Env) (document : TextDocument) (st : State) :
  let shown (text : string) : Diagnostic :=
    {| range := {| startLine := 0; startCharacter := 0;
                   endLine := 0; endCharacter := 0 |};
       message := "yamllint error: " +:+ text;
       severity := Error;
       source := Some "yamllint";
       code := None |} in
  exists st',
    lint env document st = (Ok tt, st')
    /\ (enable env = true ->
        (forall message st1,
           lintBody env document st = (Throw (ErrorObject message), st1) ->
           st' = withDiagnostics (insert (uri document) [shown message]) st1
           /\ diagnosticCollection st' !! uri document = Some [shown message])
        /\ (forall asString st1,
              lintBody env document st = (Throw (OtherValue asString), st1) ->
              st' = withDiagnostics (insert (uri document) [shown asString]) st1
              /\ diagnosticCollection st' !! uri document = Some [shown asString])
        /\ (forall e st1,
              getYamlLintConfig env document st = (Throw e, st1) ->
              lintBody env document st = (Throw e, st1))
        /\ (forall e yamlConfig st1,
              getYamlLintConfig env document st = (Ok yamlConfig, st1) ->
              runAll env (getText document) yamlConfig (fsPath document) = Throw e ->
              lintBody env document st = (Throw e, st1))).
Proof.
  intros shown.
  pose proof (lint_returns env document st) as Hret.
  destruct (lint env document st) as [o st'] eqn:Hlint. simpl in Hret. subst o.
  exists st'. split; [done|]. intros Hon.
  assert (forall e st1,
            lintBody env document st = (Throw e, st1) ->
            st' = withDiagnostics (insert (uri document) [errorDiagnostic e]) st1)
    as Hcatch.
  { intros e st1 Hbody. revert Hlint. unfold lint. rewrite Hon. simpl.
    unfold try. rewrite Hbody. unfold modify. by intros [= <-]. }
  split; [|split; [|split]].
  - intros message st1 Hbody. rewrite (Hcatch _ _ Hbody).
    split; [done|]. simpl. apply lookup_insert_eq.
  - intros asString st1 Hbody. rewrite (Hcatch _ _ Hbody).
    split; [done|]. simpl. apply lookup_insert_eq.
  - intros e st1 Hcfg. by rewrite lintBody_steps, Hcfg.
  - intros e yamlConfig st1 Hcfg Hrun. by rewrite lintBody_steps, Hcfg, Hrun.
Qed.

Lemma lint_failure_visible_witness :
  (exists st',
     lint brokenEnv sampleDocument (constructed brokenEnv) = (Ok tt, st')
     /\ diagnosticCollection st' !! uri sampleDocument
        = Some [ {| range := {| startLine := 0; startCharacter := 0;
                                endLine := 0; endCharacter := 0 |};
                    message := "yamllint error: unexpected token";
                    severity := Error;
                    source := Some "yamllint";
                    code := None |} ])
  /\ (exists st',
        lint throwingEnv sampleDocument (constructed throwingEnv) = (Ok tt, st')
        /\ diagnosticCollection st' !! uri sampleDocument
           = Some [ {| range := {| startLine := 0; startCharacter := 0;
                                   endLine := 0; endCharacter := 0 |};
                       message := "yamllint error: stack overflow";
                       severity := Error;
                       source := Some "yamllint";
                       code := None |} ]).
Proof.
  split.
  - destruct (lint_failure_visible brokenEnv sampleDocument (constructed brokenEnv))
      as (st' & Hlint & Hfail).
    exists st'. split; [exact Hlint|].
    destruct (Hfail eq_refl) as (Hshown & _ & _ & _).
    eapply (Hshown "unexpected token").
    vm_compute. reflexivity.
  - destruct (lint_failure_visible throwingEnv sampleDocument (constructed throwingEnv))
      as (st' & Hlint & Hfail).
    exists st'. split; [exact Hlint|].
    destruct (Hfail eq_refl) as (_ & Hshown & _ & _).
    eapply (Hshown "stack overflow").
    vm_compute. reflexivity.
Defined.

(** C6.  When the enable setting is false, [lint] does what [clear] does and
    nothing else: it returns, the document has no diagnostics afterwards,
    no timer is registered for it and the timeout that was registered is
    not pending; no config is resolved (the cache and the object counter
    are as before) and the result does not depend on the engine or on the
    file system, which are not consulted.  The diagnostics of other
    documents stay. *)
Theorem disabled_short_circuit (env : Env) (document : TextDocument) (st : State) :
  enable env = false ->
  lint env document st = clear document st
  /\ (forall env', enable env' = false ->
        lint env' document st = lint env document st)
  /\ exists st',
       lint env document st = (Ok tt, st')
       /\ diagnosticCollection st' !! uri document = None
       /\ debounceTimers st' !! uri document = None
       /\ (forall timer, debounceTimers st !! uri document = Some timer ->
             timers st' !! timer = None)
       /\ configCache st' = configCache st
       /\ nextObject st' = nextObject st
       /\ (forall u, u <> uri document ->
             diagnosticCollection st' !! u = diagnosticCollection st !! u).
Proof.
  intros Hoff.
  assert (forall env', enable env' = false ->
            lint env' document st = clear document st) as Hclear.
  { intros env' Hoff'. unfold lint. by rewrite Hoff'. }
  split; [by apply Hclear|].
  split; [intros env' Hoff'; by rewrite !Hclear|].
  rewrite Hclear, clear_returns by done.
  eexists. split; [done|].
  destruct (debounceTimers st !! uri document) as [timer|] eqn:Htimer; simpl.
  - rewrite !lookup_delete_eq. repeat split; try done.
    + intros timer' [= <-]. apply lookup_delete_eq.
    + intros u Hu. by apply lookup_delete_ne.
  - rewrite lookup_delete_eq. repeat split; try done.
    intros u Hu. by apply lookup_delete_ne.
Qed.

(** The sample state: the document was linted once and a change is being
    debounced. *)
Lemma disabled_short_circuit_witness :
  let st := (lintWithDebounce sampleDocument
               (lint sampleEnv sampleDocument (constructed sampleEnv)).2).2 in
  (exists diagnostics,
     diagnosticCollection st !! uri sampleDocument = Some diagnostics
     /\ length diagnostics = 2%nat)
  /\ debounceTimers st !! uri sampleDocument = Some 0%nat
  /\ exists st',
       lint disabledEnv sampleDocument st = (Ok tt, st')
       /\ diagnosticCollection st' !! uri sampleDocument = None
       /\ timers st' !! 0%nat = None.
Proof.
  intros st.
  split; [eexists; split; vm_compute; reflexivity|].
  split; [vm_compute; reflexivity|].
  destruct (disabled_short_circuit disabledEnv sampleDocument st eq_refl)
    as (_ & _ & st' & Hlint & Hnone & _ & Htimer & _).
  exists st'. split; [exact Hlint|]. split; [exact Hnone|].
  apply Htimer. vm_compute. reflexivity.
Defined.

(** C7.  Each successful lint pass replaces the published diagnostics of the
    document as a whole.  After a first pass on a document, whatever it
    published, a second pass on the document (the same identity) in which
    the engine returns [problems] leaves in the store exactly the
    diagnostics mapped from [problems], one for each and in their order;
    nothing of the first pass remains. *)
Theorem full_replace (env1 env2 : Env) (document1 document2 : TextDocument)
    (st : State) (yamlConfig : YamlLintConfig) (st2 : State)
    (problems : list LintProblem) :
  let st1 := (lint env1 document1 st).2 in
  uri document2 = uri document1 ->
  enable env2 = true ->
  getYamlLintConfig env2 document2 st1 = (Ok yamlConfig, st2) ->
  runAll env2 (getText document2) yamlConfig (fsPath document2) = Ok problems ->
  exists diagnostics,
    Forall2 (fun problem d => problemToDiagnostic problem document2 = Ok d)
      problems diagnostics
    /\ length diagnostics = length problems
    /\ lint env2 document2 st1
       = (Ok tt, withDiagnostics (insert (uri document1) diagnostics) st2)
    /\ diagnosticCollection (lint env2 document2 st1).2 !! uri document1
       = Some diagnostics.
Proof.
  intros st1 Huri Hon Hcfg Hrun.
  destruct (lintBody_publishes _ _ _ _ _ _ Hcfg Hrun) as (diagnostics & Hall & Hbody).
  exists diagnostics. split; [done|].
  split; [symmetry; by eapply Forall2_length|].
  assert (lint env2 document2 st1
          = (Ok tt, withDiagnostics (insert (uri document1) diagnostics) st2))
    as Hlint.
  { unfold lint. rewrite Hon. simpl. unfold try. by rewrite Hbody, Huri. }
  split; [done|]. rewrite Hlint. simpl. apply lookup_insert_eq.
Qed.

Lemma full_replace_witness :
  let st1 := (lint sampleEnv sampleDocument (constructed sampleEnv)).2 in
  (exists first,
     diagnosticCollection st1 !! uri sampleDocument = Some first
     /\ length first = 2%nat)
  /\ exists d,
       problemToDiagnostic noNewLineAtEnd editedDocument = Ok d
       /\ diagnosticCollection (lint sampleEnv editedDocument st1).2
            !! uri sampleDocument = Some [d].
Proof.
  intros st1.
  split; [eexists; split; vm_compute; reflexivity|].
  destruct (full_replace sampleEnv sampleEnv sampleDocument editedDocument
              (constructed sampleEnv)
              {| ref := 0; rules := "rules of /work/.yamllint.yml" |}
              st1 [noNewLineAtEnd])
    as (diagnostics & Hall & _ & _ & Hstore);
    [reflexivity|reflexivity|vm_compute; reflexivity|vm_compute; reflexivity|].
  inversion Hall as [|? d ? ds Hd Hnil]; subst. inversion Hnil; subst.
  exists d. split; [exact Hd|exact Hstore].
Defined.

(** ** The timers *)

Section Timers.

Implicit Types (env : Env) (st : State) (document : TextDocument)
  (u : string) (timer : nat).

Lemma sameTimers_refl st : sameTimers st st.
Proof. by repeat split. Qed.

Lemma sameTimers_withDiagnostics f st st' :
  sameTimers st st' -> sameTimers st (withDiagnostics f st').
Proof. intros (? & ? & ? & ? & ? & ?). by repeat split. Qed.

Lemma getYamlLintConfig_sameTimers env document st o st' :
  getYamlLintConfig env document st = (o, st') ->
  sameTimers st st' /\ diagnosticCollection st' = diagnosticCollection st
  /\ (cacheGiven st -> cacheGiven st').
Proof.
  intros Hrun.
  destruct (getYamlLintConfig_writes _ _ _ _ _ Hrun)
    as [->|(key & cfg & _ & Href & -> & _)].
  - split; [apply sameTimers_refl|done].
  - split; [by repeat split|]. split; [done|].
    intros Hgiven key' cached. unfold stored. simpl.
    destruct (decide (key = key')) as [<-|Hne].
    + rewrite lookup_insert_eq. intros [= <-]. lia.
    + rewrite lookup_insert_ne by done. intros Hc.
      pose proof (Hgiven _ _ Hc). lia.
Qed.

(** With linting enabled, [lint] writes to the diagnostics and to the cache
    only. *)
Lemma lint_enabled_sameTimers env document st :
  enable env = true ->
  sameTimers st (lint env document st).2
  /\ (cacheGiven st -> cacheGiven (lint env document st).2).
Proof.
  intros Hon. unfold lint. rewrite Hon. simpl. unfold try.
  rewrite lintBody_steps.
  destruct (getYamlLintConfig env document st) as [[yamlConfig|e] st1] eqn:Hcfg;
    apply getYamlLintConfig_sameTimers in Hcfg as (Hsame & _ & Hgiven);
    [|by split; [apply sameTimers_withDiagnostics|]].
  destruct (runAll env (getText document) yamlConfig (fsPath document))
    as [problems|e]; [|by split; [apply sameTimers_withDiagnostics|]].
  destruct (mapM_problemToDiagnostic document problems st1)
    as (diagnostics & -> & _).
  by split; [apply sameTimers_withDiagnostics|].
Qed.

(** What [clear] does to the timer of the document. *)
Lemma clear_effect document st :
  let st' := (clear document st).2 in
  configCache st' = configCache st /\ nextObject st' = nextObject st
  /\ match debounceTimers st !! uri document with
     | Some timer => removed (uri document) timer [] (now st) st st'
     | None => sameTimers st st'
     end.
Proof.
  rewrite clear_returns. simpl.
  destruct (debounceTimers st !! uri document) as [timer|]; simpl.
  - split; [done|]. split; [done|]. repeat split; try done.
    by rewrite app_nil_r.
  - split; [done|]. split; [done|]. by repeat split.
Qed.

(** [lint] on a document that has no registered timer leaves the timers
    alone. *)
Lemma lint_sameTimers env document st :
  debounceTimers st !! uri document = None ->
  sameTimers st (lint env document st).2
  /\ (cacheGiven st -> cacheGiven (lint env document st).2).
Proof.
  intros Hnone. destruct (enable env) eqn:Hon.
  - by apply lint_enabled_sameTimers.
  - unfold lint. rewrite Hon. simpl.
    pose proof (clear_effect document st) as (Hc & Hn & Heff).
    rewrite Hnone in Heff. split; [done|].
    intros Hgiven key cached. rewrite Hc, Hn. apply Hgiven.
Qed.

(** What the run of a pending timeout does. *)
Lemma fire_effect env timer due document st :
  timers st !! timer = Some (due, document) ->
  let st' := fire env timer st in
  removed (uri document) timer [(timer, document)] (Z.max (now st) due) st st'
  /\ (cacheGiven st -> cacheGiven st').
Proof.
  intros Hpending. unfold fire. rewrite Hpending.
  unfold debounced, bind, modify.
  set (st0 := withDebounceTimers (delete (uri document))
                (withFired (fun log => log ++ [(timer, document)])
                   (withNow (Z.max (now st) due)
                      (withTimers (delete timer) st)))).
  destruct (lint_sameTimers env document st0) as [Hsame Hgiven].
  { unfold st0. simpl. apply lookup_delete_eq. }
  destruct Hsame as (H1 & H2 & H3 & H4 & H5 & H6).
  split; [|intros Hg; by apply Hgiven].
  unfold removed. by rewrite H1, H2, H3, H4, H5, H6.
Qed.

Lemma invariant_sameTimers st st' :
  invariant st -> sameTimers st st' -> cacheGiven st' -> invariant st'.
Proof.
  intros [] (H1 & H2 & H3 & H4 & _ & _) Hgiven.
  split; rewrite ?H1, ?H2, ?H3, ?H4; done.
Qed.

Lemma invariant_removed u timer extra t st st' :
  invariant st ->
  debounceTimers st !! u = Some timer ->
  (forall entry, entry ∈ extra -> entry.1 = timer) ->
  removed u timer extra t st st' ->
  cacheGiven st' ->
  invariant st'.
Proof.
  intros [] Hreg Hextra (H1 & H2 & H3 & H4 & _ & _) Hgiven.
  destruct (registered_pending0 _ _ Hreg) as (due & document & Hpending & Huri).
  split; rewrite ?H1, ?H2, ?H3, ?H4; [| | | | |done].
  - intros u' timer' Hreg'.
    destruct (decide (u = u')) as [<-|Hne]; [by rewrite lookup_delete_eq in Hreg'|].
    rewrite lookup_delete_ne in Hreg' by done.
    destruct (registered_pending0 _ _ Hreg') as (due' & document' & Hp' & Hu').
    exists due', document'. split; [|done].
    rewrite lookup_delete_ne; [done|]. intros Heq. congruence.
  - intros timer' due' document' Hp'.
    destruct (decide (timer = timer')) as [<-|Hne];
      [by rewrite lookup_delete_eq in Hp'|].
    rewrite lookup_delete_ne in Hp' by done.
    pose proof (pending_registered0 _ _ _ Hp') as Hreg'.
    rewrite lookup_delete_ne; [done|]. intros Heq. congruence.
  - intros timer' [x Hp'].
    destruct (decide (timer = timer')) as [<-|Hne];
      [by rewrite lookup_delete_eq in Hp'|].
    rewrite lookup_delete_ne in Hp' by done. apply pending_given0. eauto.
  - intros timer' document' [Hin|Hin]%elem_of_app; [by eapply fired_given0|].
    apply Hextra in Hin. simpl in Hin. subst timer'.
    apply pending_given0. eauto.
  - intros timer' document' [Hin|Hin]%elem_of_app.
    + destruct (decide (timer = timer')) as [<-|Hne];
        [apply lookup_delete_eq|].
      rewrite lookup_delete_ne by done. by eapply fired_not_pending0.
    + apply Hextra in Hin. simpl in Hin. subst timer'. apply lookup_delete_eq.
Qed.

Lemma lint_invariant env document st :
  invariant st -> invariant (lint env document st).2.
Proof.
  intros Hinv. destruct (enable env) eqn:Hon.
  - destruct (lint_enabled_sameTimers env document st Hon) as [Hsame Hgiven].
    eapply invariant_sameTimers; [done|done|]. exact (Hgiven (cached_given _ Hinv)).
  - unfold lint. rewrite Hon. simpl.
    pose proof (clear_effect document st) as (Hc & Hn & Heff).
    assert (cacheGiven (clear document st).2) as Hgiven.
    { intros key cached. rewrite Hc, Hn. apply (cached_given _ Hinv). }
    destruct (debounceTimers st !! uri document) as [timer|] eqn:Hreg.
    + eapply invariant_removed; [done|exact Hreg| |exact Heff|done].
      by intros entry ?%elem_of_nil.
    + by eapply invariant_sameTimers.
Qed.

Lemma clear_invariant document st :
  invariant st -> invariant (clear document st).2.
Proof.
  intros Hinv.
  pose proof (clear_effect document st) as (Hc & Hn & Heff).
  assert (cacheGiven (clear document st).2) as Hgiven.
  { intros key cached. rewrite Hc, Hn. apply (cached_given _ Hinv). }
  destruct (debounceTimers st !! uri document) as [timer|] eqn:Hreg.
  - eapply invariant_removed; [done|exact Hreg| |exact Heff|done].
    by intros entry ?%elem_of_nil.
  - by eapply invariant_sameTimers.
Qed.

Lemma fire_invariant env timer st :
  invariant st -> invariant (fire env timer st).
Proof.
  intros Hinv.
  destruct (timers st !! timer) as [[due document]|] eqn:Hpending;
    [|unfold fire; by rewrite Hpending].
  destruct (fire_effect env timer due document st Hpending) as [Heff Hgiven].
  eapply invariant_removed; [done| | |exact Heff|exact (Hgiven (cached_given _ Hinv))].
  - by eapply pending_registered.
  - by intros entry ->%list_elem_of_singleton.
Qed.

(** What [lintWithDebounce] leaves: the timer that was registered for the
    document is cancelled, a new one is pending and registered. *)
Lemma lintWithDebounce_returns document st :
  lintWithDebounce document st =
  (Ok tt,
   withDebounceTimers (insert (uri document) (nextTimer st))
     (withNextTimer (S (nextTimer st))
        (withTimers
           (fun ts =>
              <[nextTimer st := (now st + timeoutDelay (debounceTime st), document)]>
                match debounceTimers st !! uri document with
                | Some existingTimer => delete existingTimer ts
                | None => ts
                end)
           st))).
Proof.
  unfold lintWithDebounce. run.
  by destruct (debounceTimers st !! uri document).
Qed.

Lemma lintWithDebounce_invariant document st :
  invariant st -> invariant (lintWithDebounce document st).2.
Proof.
  intros Hinv. rewrite lintWithDebounce_returns. simpl.
  set (u := uri document). set (new := nextTimer st).
  set (due := now st + timeoutDelay (debounceTime st)).
  set (ts := match debounceTimers st !! u with
             | Some existingTimer => delete existingTimer (timers st)
             | None => timers st
             end).
  assert (forall timer x, ts !! timer = Some x -> timers st !! timer = Some x)
    as Hsub.
  { intros timer x. unfold ts. destruct (debounceTimers st !! u); [|done].
    rewrite lookup_delete. case_decide; done. }
  assert (forall timer x, ts !! timer = Some x ->
            debounceTimers st !! u <> Some timer) as Hnot.
  { intros timer x. unfold ts. destruct (debounceTimers st !! u) as [e|]; [|done].
    rewrite lookup_delete. case_decide; [done|]. congruence. }
  assert (forall timer x, timers st !! timer = Some x ->
            debounceTimers st !! u <> Some timer -> ts !! timer = Some x)
    as Hkeep.
  { intros timer x Hp Hne. unfold ts.
    destruct (debounceTimers st !! u) as [e|]; [|done].
    rewrite lookup_delete_ne; [done|]. congruence. }
  destruct Hinv. split; simpl.
  - intros u' timer'. destruct (decide (u = u')) as [<-|Hne].
    + rewrite lookup_insert_eq. intros [= <-].
      exists due, document. by rewrite lookup_insert_eq.
    + rewrite lookup_insert_ne by done. intros Hreg.
      destruct (registered_pending0 _ _ Hreg) as (due' & document' & Hp & Hu).
      exists due', document'. split; [|done].
      assert (timer' <> new).
      { assert (timer' < nextTimer st)%nat by (apply pending_given0; eauto).
        unfold new. lia. }
      rewrite lookup_insert_ne by done.
      apply Hkeep; [done|]. intros Hreg'.
      destruct (registered_pending0 _ _ Hreg') as (? & ? & Hp' & Hu').
      congruence.
  - intros timer' due' document'.
    destruct (decide (new = timer')) as [<-|Hne].
    + rewrite lookup_insert_eq. intros [= <- <-]. apply lookup_insert_eq.
    + rewrite lookup_insert_ne by done. intros Hp.
      pose proof (Hnot _ _ Hp) as Hne'. apply Hsub in Hp.
      pose proof (pending_registered0 _ _ _ Hp) as Hreg.
      rewrite lookup_insert_ne; [done|]. fold u. congruence.
  - intros timer'. destruct (decide (new = timer')) as [<-|Hne]; [unfold new; lia|].
    rewrite lookup_insert_ne by done. intros [x Hp]. apply Hsub in Hp.
    assert (timer' < nextTimer st)%nat by (apply pending_given0; eauto). lia.
  - intros timer' document' Hin.
    pose proof (fired_given0 _ _ Hin). lia.
  - intros timer' document' Hin.
    pose proof (fired_given0 _ _ Hin). pose proof (fired_not_pending0 _ _ Hin) as Hn.
    rewrite lookup_insert_ne by (unfold new; lia).
    destruct (ts !! timer') as [x|] eqn:Hts; [|done].
    apply Hsub in Hts. congruence.
  - done.
Qed.

Lemma updateConfiguration_invariant env st :
  invariant st -> invariant (updateConfiguration env st).2.
Proof.
  intros []. split; simpl; try done;
    intros key cached; by rewrite lookup_empty.
Qed.

(** The timeouts that [dispose] leaves pending: those that it did not find
    registered. *)
Lemma foldr_delete_lookup (pending : list (string * nat))
    (ts : gmap nat (Z * TextDocument)) timer :
  foldr (fun entry ts => delete entry.2 ts) ts pending !! timer
  = if decide (timer ∈ pending.*2) then None else ts !! timer.
Proof.
  induction pending as [|[u t] pending IH].
  - done.
  - rewrite fmap_cons. cbn [foldr snd]. rewrite lookup_delete, IH.
    destruct (decide (t = timer)) as [->|Hne].
    + rewrite decide_True; [done|]. left.
    + destruct (decide (timer ∈ pending.*2)) as [Hin|Hnin].
      * rewrite decide_True; [done|]. by right.
      * rewrite decide_False; [done|].
        intros [Heq|Hin]%elem_of_cons; [congruence|done].
Qed.

Lemma dispose_invariant st : invariant st -> invariant (dispose st).2.
Proof.
  intros []. unfold dispose. run.
  split; simpl; intros *; rewrite ?lookup_empty, ?foldr_delete_lookup; try done.
  - case_decide as Hin; [done|]. intros Hp. exfalso. apply Hin.
    apply pending_registered0 in Hp.
    apply list_elem_of_fmap. eexists (_, _). split; [done|].
    by apply elem_of_map_to_list.
  - case_decide; [by intros [? ?]|]. apply pending_given0.
  - intros Hin. by eapply fired_given0.
  - intros Hin. case_decide; [done|]. by eapply fired_not_pending0.
Qed.

(** The timeout that [nextDue] finds is pending and due; when it finds
    none, none is due. *)
Lemma nextDue_Some (t : Z) st timer due document :
  nextDue t st = Some (timer, (due, document)) ->
  timers st !! timer = Some (due, document) /\ due <= t.
Proof.
  unfold nextDue. rewrite <- elem_of_map_to_list.
  generalize (map_to_list (timers st)). intros l.
  induction l as [|entry l IH]; [done|]. simpl.
  destruct (Z.leb_spec entry.2.1 t) as [Hdue|Hlate].
  - destruct (foldr _ None l) as [b|] eqn:Hbest.
    + destruct (earlier entry b).
      * intros [= ->]. split; [left|done].
      * intros [= ->]. destruct IH as [Hin Hle]; [done|]. split; [by right|done].
    + intros [= ->]. split; [left|done].
  - intros Hbest. destruct (IH Hbest) as [Hin Hle]. split; [by right|done].
Qed.

Lemma nextDue_None (t : Z) st :
  nextDue t st = None ->
  forall timer due document, timers st !! timer = Some (due, document) -> t < due.
Proof.
  unfold nextDue. intros Hnone timer due document.
  rewrite <- elem_of_map_to_list. revert Hnone.
  generalize (map_to_list (timers st)). intros l.
  induction l as [|entry l IH]; [by intros _ ?%elem_of_nil|]. simpl.
  destruct (Z.leb_spec entry.2.1 t) as [Hdue|Hlate].
  - destruct (foldr _ None l) as [b|]; [by destruct (earlier entry b)|done].
  - intros Hbest [Heq|Hin]%elem_of_cons; [by subst entry|]. by apply IH.
Qed.

Lemma runDue_invariant env (fuel : nat) (t : Z) st :
  invariant st -> invariant (runDue env fuel t st).
Proof.
  revert st. induction fuel as [|fuel IH]; intros st Hinv; [done|]. simpl.
  destruct (nextDue t st) as [[timer x]|]; [|done].
  by apply IH, fire_invariant.
Qed.

Lemma advance_invariant env (t : Z) st :
  invariant st -> invariant (advance env t st).
Proof.
  intros Hinv. unfold advance.
  pose proof (runDue_invariant env (size (timers st)) t st Hinv) as [].
  by split.
Qed.

Lemma perform_invariant env (a : Action) st :
  invariant st -> invariant (perform env a st).
Proof.
  intros Hinv. destruct a; simpl.
  - by apply lint_invariant.
  - by apply lintWithDebounce_invariant.
  - by apply clear_invariant.
  - by apply updateConfiguration_invariant.
  - by apply dispose_invariant.
  - by apply fire_invariant.
  - by apply advance_invariant.
Qed.

Lemma reachable_invariant st : reachable st -> invariant st.
Proof.
  induction 1 as [env|env a st _ IH].
  - apply constructed_invariant.
  - by apply perform_invariant.
Qed.

Lemma follows_invariant st st' : invariant st -> follows st st' -> invariant st'.
Proof.
  intros Hinv. induction 1 as [|env a st' _ IH]; [done|].
  by apply perform_invariant.
Qed.

(** *** How the timeouts develop *)













(** *** A burst of calls *)

Lemma ranFor_app u (l1 l2 : list (nat * TextDocument)) :
  ranFor u (l1 ++ l2) = ranFor u l1 ++ ranFor u l2.
Proof. unfold ranFor. by rewrite filter_app, fmap_app. Qed.

Lemma ranFor_own u timer document :
  uri document = u -> ranFor u [(timer, document)] = [document].
Proof. intros Hu. unfold ranFor. by rewrite filter_cons_True. Qed.

Lemma ranFor_other u timer document :
  uri document <> u -> ranFor u [(timer, document)] = [].
Proof. intros Hu. unfold ranFor. by rewrite filter_cons_False. Qed.

(** The run of the timeout of another document leaves the timer of [u]
    armed. *)
Lemma fire_other env u timer due document timer' due' document' st :
  invariant st ->
  armed u timer due document st ->
  timers st !! timer' = Some (due', document') ->
  timer' <> timer ->
  let st' := fire env timer' st in
  armed u timer due document st'
  /\ ranFor u (fired st') = ranFor u (fired st)
  /\ debounceTime st' = debounceTime st
  /\ (size (timers st') < size (timers st))%nat.
Proof.
  intros Hinv [Hreg Hpending] Hpending' Hne st'.
  destruct (fire_effect env timer' due' document' st Hpending')
    as [(H1 & H2 & H3 & H4 & H5 & H6) _].
  fold st' in H1, H2, H3, H4, H5, H6.
  assert (uri document' <> u) as Hu.
  { intros <-. apply (pending_registered _ Hinv) in Hpending'. congruence. }
  split; [|split; [|split]].
  - split.
    + rewrite H1. by rewrite lookup_delete_ne.
    + rewrite H2. by rewrite lookup_delete_ne.
  - rewrite H4, ranFor_app, ranFor_other by done. apply app_nil_r.
  - done.
  - rewrite H2, map_size_delete, Hpending'.
    assert (size (timers st) <> 0)%nat; [|simpl; lia].
    apply map_size_ne_0_lookup. eauto.
Qed.

(** The run of the timeout of [u] itself. *)
Lemma fire_own env u timer due document st :
  invariant st ->
  armed u timer due document st ->
  let st' := fire env timer st in
  debounceTimers st' !! u = None
  /\ ranFor u (fired st') = ranFor u (fired st) ++ [document].
Proof.
  intros Hinv [Hreg Hpending] st'.
  destruct (fire_effect env timer due document st Hpending)
    as [(H1 & H2 & H3 & H4 & H5 & H6) _].
  fold st' in H1, H2, H3, H4, H5, H6.
  assert (uri document = u) as Hu.
  { destruct (registered_pending _ Hinv _ _ Hreg) as (? & ? & ? & ?).
    congruence. }
  split.
  - rewrite H1, Hu. apply lookup_delete_eq.
  - by rewrite H4, ranFor_app, ranFor_own.
Qed.

(** When no timer is registered for [u], whatever runs is not for [u]. *)
Lemma runDue_unarmed env u (fuel : nat) (t : Z) st :
  invariant st ->
  debounceTimers st !! u = None ->
  let st' := runDue env fuel t st in
  debounceTimers st' !! u = None
  /\ ranFor u (fired st') = ranFor u (fired st).
Proof.
  revert st. induction fuel as [|fuel IH]; intros st Hinv Hnone; [done|].
  simpl. destruct (nextDue t st) as [[timer' [due' document']]|] eqn:Hnext;
    [|done].
  apply nextDue_Some in Hnext as [Hpending' _].
  destruct (fire_effect env timer' due' document' st Hpending')
    as [(H1 & H2 & H3 & H4 & H5 & H6) _].
  assert (uri document' <> u) as Hu.
  { intros <-. apply (pending_registered _ Hinv) in Hpending'. congruence. }
  destruct (IH (fire env timer' st)) as [Hnone' Hran].
  - by apply fire_invariant.
  - rewrite H1. by rewrite lookup_delete_ne.
  - split; [done|]. rewrite Hran, H4, ranFor_app, ranFor_other by done.
    apply app_nil_r.
Qed.

(** Before the timer of [u] is due it stays armed, and nothing runs for
    [u]. *)
Lemma runDue_before env u timer due document (fuel : nat) (t : Z) st :
  invariant st ->
  armed u timer due document st ->
  t < due ->
  let st' := runDue env fuel t st in
  armed u timer due document st'
  /\ ranFor u (fired st') = ranFor u (fired st)
  /\ debounceTime st' = debounceTime st.
Proof.
  revert st. induction fuel as [|fuel IH]; intros st Hinv Harmed Ht; [done|].
  simpl. destruct (nextDue t st) as [[timer' [due' document']]|] eqn:Hnext;
    [|done].
  apply nextDue_Some in Hnext as [Hpending' Hdue'].
  assert (timer' <> timer) as Hne.
  { intros ->. destruct Harmed as [_ Hpending]. rewrite Hpending in Hpending'.
    injection Hpending' as -> _. lia. }
  destruct (fire_other env u timer due document timer' due' document' st)
    as (Harmed' & Hran & Hdelay & _); [done..|].
  destruct (IH (fire env timer' st)) as (Harmed'' & Hran' & Hdelay');
    [by apply fire_invariant|done|done|].
  split; [done|]. split; congruence.
Qed.

(** Once the timer of [u] is due, its callback runs, once, and no other
    runs for [u]. *)
Lemma runDue_own env u timer due document (fuel : nat) (t : Z) st :
  invariant st ->
  armed u timer due document st ->
  due <= t ->
  (size (timers st) <= fuel)%nat ->
  let st' := runDue env fuel t st in
  debounceTimers st' !! u = None
  /\ ranFor u (fired st') = ranFor u (fired st) ++ [document].
Proof.
  revert st. induction fuel as [|fuel IH]; intros st Hinv Harmed Ht Hfuel.
  { destruct Harmed as [_ Hpending].
    assert (size (timers st) <> 0)%nat; [|lia].
    apply map_size_ne_0_lookup. eauto. }
  simpl. destruct (nextDue t st) as [[timer' [due' document']]|] eqn:Hnext.
  - apply nextDue_Some in Hnext as [Hpending' Hdue'].
    destruct (decide (timer' = timer)) as [->|Hne].
    + destruct (fire_own env u timer due document st) as [Hnone Hran]; [done..|].
      destruct (runDue_unarmed env u fuel t (fire env timer st))
        as [Hnone' Hran']; [by apply fire_invariant|done|].
      split; [done|]. congruence.
    + destruct (fire_other env u timer due document timer' due' document' st)
        as (Harmed' & Hran & _ & Hsize); [done..|].
      destruct (IH (fire env timer' st)) as [Hnone' Hran'];
        [by apply fire_invariant|done|done|lia|].
      split; [done|]. congruence.
  - destruct Harmed as [_ Hpending].
    pose proof (nextDue_None _ _ Hnext _ _ _ Hpending). lia.
Qed.

Lemma lintWithDebounce_armed document st :
  let st' := (lintWithDebounce document st).2 in
  armed (uri document) (nextTimer st)
    (now st' + timeoutDelay (debounceTime st')) document st'
  /\ fired st' = fired st
  /\ debounceTime st' = debounceTime st.
Proof.
  rewrite lintWithDebounce_returns. simpl. split; [|done].
  split; simpl; apply lookup_insert_eq.
Qed.

(** A burst of calls for one document, each less than the delay after the
    one before: nothing runs for the document, and the timer of the last
    call is armed. *)
Lemma rapid_armed env (calls : list (Z * TextDocument)) :
  forall st u timer document,
    invariant st ->
    armed u timer (now st + timeoutDelay (debounceTime st)) document st ->
    (forall entry, entry ∈ calls ->
       uri entry.2 = u /\ entry.1 < timeoutDelay (debounceTime st)) ->
    let st' := rapid env calls st in
    invariant st'
    /\ (exists timer',
          armed u timer' (now st' + timeoutDelay (debounceTime st'))
            (default document (last calls.*2)) st')
    /\ ranFor u (fired st') = ranFor u (fired st)
    /\ debounceTime st' = debounceTime st.
Proof.
  induction calls as [|[ms next] calls IH];
    intros st u timer document Hinv Harmed Hcalls.
  { simpl. split; [done|]. split; [eauto|done]. }
  destruct (Hcalls (ms, next)) as [Hu Hms]; [left|]. simpl in Hu, Hms.
  simpl rapid. unfold advance.
  set (st1 := runDue env (size (timers st)) (now st + ms) st).
  destruct (runDue_before env u timer _ document (size (timers st))
              (now st + ms) st Hinv Harmed) as (Harmed1 & Hran1 & Hdelay1);
    [lia|]. fold st1 in Harmed1, Hran1, Hdelay1.
  set (st2 := withNow (Z.max (now st1) (now st + ms)) st1).
  assert (invariant st2) as Hinv2 by apply (advance_invariant env _ st Hinv).
  set (st3 := (lintWithDebounce next st2).2).
  destruct (lintWithDebounce_armed next st2) as (Harmed3 & Hfired3 & Hdelay3).
  fold st3 in Harmed3, Hfired3, Hdelay3. rewrite Hu in Harmed3.
  destruct (IH st3 u (nextTimer st2) next)
    as (Hinv' & [timer' Harmed'] & Hran' & Hdelay').
  - by apply lintWithDebounce_invariant.
  - done.
  - intros entry Hin. rewrite Hdelay3. simpl. rewrite Hdelay1.
    apply Hcalls. by right.
  - split; [done|]. split; [|split].
    + exists timer'. rewrite fmap_cons, last_cons. simpl.
      by destruct (last calls.*2).
    + rewrite Hran', Hfired3. done.
    + rewrite Hdelay', Hdelay3. done.
Qed.

End Timers.



(** * Further properties of the provider *)

(** ** The extent of the range *)

(** Where the loop over the line text stops: the units it went over are no
    white space, and it stopped at the end or at white space. *)
Lemma extendWord_span (rest : jsstring) (c : Z) :
  let n := Z.to_nat (extendWord rest c - c) in
  (forall i : nat, (i < n)%nat ->
     exists x, rest !! i = Some x /\ isWhiteSpace x = false)
  /\ (n = length rest
      \/ exists x, rest !! n = Some x /\ isWhiteSpace x = true).
Proof.
  revert c. induction rest as [|x rest IH]; intros c; simpl.
  { rewrite Z.sub_diag. simpl. split; [lia|by left]. }
  destruct (isWhiteSpace x) eqn:Hx.
  { rewrite Z.sub_diag. simpl. split; [lia|]. right. eauto. }
  specialize (IH (c + 1)). simpl in IH. destruct IH as [Hword Hstop].
  pose proof (extendWord_ge rest (c + 1)).
  replace (Z.to_nat (extendWord rest (c + 1) - c))
    with (S (Z.to_nat (extendWord rest (c + 1) - (c + 1)))) by lia.
  split.
  - intros [|i] Hi; simpl; [eauto|]. apply Hword. lia.
  - destruct Hstop as [Hstop|Hstop]; [left; simpl; lia|right; exact Hstop].
Qed.

(** X1.  When the character at the start column is not white space, the
    range of the diagnostic covers the run of characters without white
    space that starts there: it starts at the start column, every
    character of the range is no white space, and the range ends at the
    end of the line or before a white space character. *)
Theorem range_covers_word (problem : LintProblem) (document : TextDocument) :
  let line0 := Z.max 0 (line problem - 1) in
  let column0 := Z.max 0 (column problem - 1) in
  exists lineText d,
    lines document !! Z.to_nat (Z.min line0 (lineCount document - 1)) = Some lineText
    /\ problemToDiagnostic problem document = Ok d
    /\ forall c0,
         lineText !! Z.to_nat column0 = Some c0 ->
         isWhiteSpace c0 = false ->
         startCharacter (range d) = column0
         /\ startCharacter (range d) < endCharacter (range d)
                                     <= Z.of_nat (length lineText)
         /\ (forall i, startCharacter (range d) <= i < endCharacter (range d) ->
               exists c, lineText !! Z.to_nat i = Some c /\ isWhiteSpace c = false)
         /\ (endCharacter (range d) = Z.of_nat (length lineText)
             \/ exists c, lineText !! Z.to_nat (endCharacter (range d)) = Some c
                          /\ isWhiteSpace c = true).
Proof.
  intros line0 column0.
  destruct (problemToDiagnostic_returns problem document)
    as (lineText & Hline & Hret).
  fold line0 column0 in Hline, Hret.
  assert (0 <= column0) as H0 by (unfold column0; lia).
  eexists lineText, _. split; [exact Hline|]. split; [exact Hret|].
  simpl. intros c0 Hc0 Hword.
  pose proof (lookup_lt_Some _ _ _ Hc0) as Hlt.
  set (rest := drop (Z.to_nat column0) lineText).
  assert (endColumnOn lineText column0 = extendWord rest column0) as He.
  { unfold endColumnOn. fold rest.
    destruct (decide (extendWord rest column0 = column0)) as [Heq|Hne]; [|done].
    exfalso. revert Heq. unfold rest. erewrite drop_S by exact Hc0.
    pose proof (extendWord_word c0 (drop (S (Z.to_nat column0)) lineText)
                  column0 Hword). lia. }
  rewrite He.
  pose proof (extendWord_ge rest column0) as Hge.
  pose proof (extendWord_le rest column0) as Hle.
  pose proof (extendWord_span rest column0) as Hspan. cbv zeta in Hspan.
  destruct Hspan as [Hrun Hstop].
  assert (length rest = (length lineText - Z.to_nat column0)%nat) as Hlen
    by (unfold rest; apply length_drop).
  assert (column0 + 1 <= extendWord rest column0) as Hpos.
  { unfold rest. erewrite drop_S by exact Hc0. by apply extendWord_word. }
  rewrite Z.min_l, Z.max_r by lia.
  split; [done|]. split; [lia|]. split.
  - intros i Hi.
    destruct (Hrun (Z.to_nat (i - column0))) as (x & Hx & Hnw); [lia|].
    exists x. split; [|done]. subst rest. rewrite lookup_drop in Hx.
    rewrite <- Hx. f_equal. lia.
  - destruct Hstop as [Hstop|(x & Hx & Hws)]; [left; lia|].
    right. exists x. split; [|done]. subst rest.
    rewrite lookup_drop in Hx. rewrite <- Hx. f_equal. lia.
Qed.

Lemma range_covers_word_witness :
  exists d,
    problemToDiagnostic (problemAt 2 1 "error" (Some "colons")) sampleDocument = Ok d
    /\ startCharacter (range d) = 0 /\ endCharacter (range d) = 5.
Proof.
  destruct (range_covers_word (problemAt 2 1 "error" (Some "colons")) sampleDocument)
    as (lineText & d & Hline & Hd & Hword).
  exists d. split; [exact Hd|].
  vm_compute in Hline. injection Hline as <-.
  destruct (Hword 108%N eq_refl eq_refl) as (_ & Hbounds & Hrun & Hstop).
  assert (startCharacter (range d) = 0) as Hstart.
  { revert Hd. vm_compute. by intros [= <-]. }
  split; [exact Hstart|].
  revert Hd. vm_compute. by intros [= <-].
Defined.

(** ** One document at a time *)

Lemma lint_diagnostics_other (env : Env) (document : TextDocument) (st : State)
    (u : string) :
  u <> uri document ->
  diagnosticCollection (lint env document st).2 !! u
  = diagnosticCollection st !! u.
Proof.
  intros Hne. unfold lint. destruct (enable env); simpl.
  - unfold try. rewrite lintBody_steps.
    destruct (getYamlLintConfig env document st) as [[yamlConfig|e] st1] eqn:Hcfg;
      apply getYamlLintConfig_sameTimers in Hcfg as (_ & Hdiag & _);
      [|simpl; by rewrite lookup_insert_ne, Hdiag].
    destruct (runAll env (getText document) yamlConfig (fsPath document))
      as [problems|e]; [|simpl; by rewrite lookup_insert_ne, Hdiag].
    destruct (mapM_problemToDiagnostic document problems st1)
      as (diagnostics & -> & _).
    simpl. by rewrite lookup_insert_ne, Hdiag.
  - rewrite clear_returns. simpl.
    destruct (debounceTimers st !! uri document); simpl;
      by rewrite lookup_delete_ne.
Qed.

Lemma lint_debounceTimers_other (env : Env) (document : TextDocument) (st : State)
    (u : string) :
  u <> uri document ->
  debounceTimers (lint env document st).2 !! u = debounceTimers st !! u.
Proof.
  intros Hne. destruct (enable env) eqn:Hon.
  - destruct (lint_enabled_sameTimers env document st Hon) as [(-> & _) _]. done.
  - unfold lint. rewrite Hon. simpl. rewrite clear_returns. simpl.
    destruct (debounceTimers st !! uri document); simpl; [|done].
    by rewrite lookup_delete_ne.
Qed.

Lemma lint_timers_other (env : Env) (document : TextDocument) (st : State)
    (timer : nat) (due : Z) (d : TextDocument) :
  invariant st ->
  timers st !! timer = Some (due, d) ->
  uri d <> uri document ->
  timers (lint env document st).2 !! timer = Some (due, d).
Proof.
  intros Hinv Hpending Hne. destruct (enable env) eqn:Hon.
  - destruct (lint_enabled_sameTimers env document st Hon) as [(_ & -> & _) _].
    done.
  - unfold lint. rewrite Hon. simpl. rewrite clear_returns. simpl.
    destruct (debounceTimers st !! uri document) as [timer'|] eqn:Hreg;
      simpl; [|done].
    rewrite lookup_delete_ne; [done|]. intros ->.
    destruct (registered_pending _ Hinv _ _ Hreg) as (due' & d' & Hp' & Hu').
    congruence.
Qed.

(** X2.  [lint] of a document leaves the other documents alone: their
    published diagnostics and their registered timers are as before, and
    in a state that satisfies the invariant of the provider their pending
    timeouts stay pending. *)
Theorem lint_leaves_other_documents (env : Env) (document : TextDocument)
    (st : State) (u : string) :
  u <> uri document ->
  let st' := (lint env document st).2 in
  diagnosticCollection st' !! u = diagnosticCollection st !! u
  /\ debounceTimers st' !! u = debounceTimers st !! u
  /\ (invariant st ->
      forall timer due d,
        timers st !! timer = Some (due, d) -> uri d = u ->
        timers st' !! timer = Some (due, d)).
Proof.
  intros Hne st'.
  split; [by apply lint_diagnostics_other|].
  split; [by apply lint_debounceTimers_other|].
  intros Hinv timer due d Hpending Hu. apply lint_timers_other; congruence.
Qed.

Lemma lint_leaves_other_documents_witness :
  let st' := (lint disabledEnv sampleDocument busyState).2 in
  diagnosticCollection st' !! uri otherDocument
  = diagnosticCollection busyState !! uri otherDocument
  /\ debounceTimers st' !! uri otherDocument = Some 1%nat.
Proof.
  intros st'.
  destruct (lint_leaves_other_documents disabledEnv sampleDocument busyState
              (uri otherDocument)) as (Hdiag & Htimer & _); [done|].
  split; [exact Hdiag|]. fold st' in Htimer. rewrite Htimer.
  vm_compute. reflexivity.
Defined.

(** ** Cancelling *)

Lemma runDue_now (env : Env) (fuel : nat) (t : Z) (st : State) :
  now st <= now (runDue env fuel t st).
Proof.
  revert st. induction fuel as [|fuel IH]; intros st; simpl; [lia|].
  destruct (nextDue t st) as [[timer [due document]]|] eqn:Hnext; [|lia].
  apply nextDue_Some in Hnext as [Hpending _].
  destruct (fire_effect env timer due document st Hpending)
    as [(_ & _ & _ & _ & Hnow & _) _].
  specialize (IH (fire env timer st)). lia.
Qed.

Lemma clear_twice (document : TextDocument) (st : State) :
  clear document (clear document st).2 = (Ok tt, (clear document st).2).
Proof.
  rewrite (clear_returns document st). simpl.
  destruct (debounceTimers st !! uri document) as [timer|] eqn:Hreg; simpl;
    rewrite clear_returns; simpl; rewrite ?lookup_delete_eq, ?Hreg;
    unfold withDiagnostics, withDebounceTimers, withTimers; simpl;
    by rewrite delete_delete_eq.
Qed.

(** X3.  [clear] is final for its document: in every state the provider
    can reach, after [clear] the document has no diagnostics, no timer is
    registered for it and no timeout is pending for it, a second [clear]
    changes nothing, and however long one waits no debounced callback runs
    for the document. *)
Theorem clear_cancels (env : Env) (document : TextDocument) (st : State)
    (ms : Z) :
  reachable st ->
  let u := uri document in
  let st' := (clear document st).2 in
  diagnosticCollection st' !! u = None
  /\ debounceTimers st' !! u = None
  /\ (forall timer due d, timers st' !! timer = Some (due, d) -> uri d <> u)
  /\ clear document st' = (Ok tt, st')
  /\ ranFor u (fired (perform env (Wait ms) st')) = ranFor u (fired st).
Proof.
  intros Hinv%reachable_invariant u st'.
  assert (invariant st') as Hinv' by by apply clear_invariant.
  assert (debounceTimers st' !! u = None) as Hnone.
  { unfold st'. rewrite clear_returns. simpl.
    destruct (debounceTimers st !! uri document) eqn:Hreg; simpl; [|done].
    apply lookup_delete_eq. }
  assert (fired st' = fired st) as Hfired.
  { unfold st'. rewrite clear_returns. simpl.
    by destruct (debounceTimers st !! uri document). }
  split.
  { unfold st'. rewrite clear_returns. simpl.
    destruct (debounceTimers st !! uri document); simpl; apply lookup_delete_eq. }
  split; [done|]. split.
  { intros timer due d Hpending Hu.
    apply (pending_registered _ Hinv') in Hpending. rewrite Hu in Hpending.
    congruence. }
  split; [apply clear_twice|].
  change (perform env (Wait ms) st') with (advance env (now st' + ms) st').
  unfold advance. clearbody st'. simpl.
  destruct (runDue_unarmed env u (size (timers st')) (now st' + ms) st' Hinv' Hnone)
    as [_ ->].
  by rewrite Hfired.
Qed.

Lemma clear_cancels_witness :
  ranFor (uri sampleDocument)
    (fired (perform sampleEnv (Wait 1000) (clear sampleDocument busyState).2))
  = []
  /\ ranFor (uri otherDocument)
       (fired (perform sampleEnv (Wait 1000) (clear sampleDocument busyState).2))
     = [otherDocument].
Proof.
  split; [|vm_compute; reflexivity].
  assert (reachable busyState) as Hreach by (repeat constructor).
  destruct (clear_cancels sampleEnv sampleDocument busyState 1000 Hreach)
    as (_ & _ & _ & _ & Hran).
  rewrite Hran. vm_compute. reflexivity.
Defined.

(** X4.  [dispose] leaves nothing behind: in every state the provider can
    reach, after [dispose] there are no diagnostics, no registered timers,
    no cached configs and no pending timeout at all, so that however long
    one waits no debounced callback runs. *)
Theorem dispose_cancels_everything (env : Env) (st : State) (ms : Z) :
  reachable st ->
  let st' := (dispose st).2 in
  diagnosticCollection st' = ∅
  /\ debounceTimers st' = ∅
  /\ configCache st' = ∅
  /\ timers st' = ∅
  /\ fired (perform env (Wait ms) st') = fired st.
Proof.
  intros Hinv%reachable_invariant st'.
  assert (timers st' = ∅) as Hempty.
  { apply map_eq. intros timer. rewrite lookup_empty.
    unfold st', dispose. run. rewrite foldr_delete_lookup.
    case_decide as Hin; [done|].
    destruct (timers st !! timer) as [[due d]|] eqn:Hpending; [|done].
    exfalso. apply Hin.
    apply (pending_registered _ Hinv) in Hpending.
    apply list_elem_of_fmap. eexists (_, _). split; [done|].
    by apply elem_of_map_to_list. }
  split; [done|]. split; [done|]. split; [done|]. split; [done|].
  change (perform env (Wait ms) st') with (advance env (now st' + ms) st').
  unfold advance. rewrite Hempty, map_size_empty. done.
Qed.

Lemma dispose_cancels_everything_witness :
  timers (dispose busyState).2 = ∅
  /\ fired (perform sampleEnv (Wait 1000) (dispose busyState).2) = [].
Proof.
  assert (reachable busyState) as Hreach by (repeat constructor).
  destruct (dispose_cancels_everything sampleEnv busyState 1000 Hreach)
    as (_ & _ & _ & Hempty & Hfired).
  split; [exact Hempty|]. rewrite Hfired. vm_compute. reflexivity.
Defined.

(** ** Debouncing several documents *)

(** The call for another document leaves the timer of [u] armed. *)
Lemma lintWithDebounce_other (document : TextDocument) (st : State)
    (u : string) (timer : nat) (due : Z) (d : TextDocument) :
  invariant st ->
  armed u timer due d st ->
  uri document <> u ->
  armed u timer due d (lintWithDebounce document st).2.
Proof.
  intros Hinv [Hreg Hpending] Hne. rewrite lintWithDebounce_returns.
  split; simpl.
  - by rewrite lookup_insert_ne.
  - assert (timer < nextTimer st)%nat
      by (apply (pending_given _ Hinv); eauto).
    rewrite lookup_insert_ne by lia.
    destruct (debounceTimers st !! uri document) as [existing|] eqn:Hreg';
      [|done].
    rewrite lookup_delete_ne; [done|]. intros ->.
    destruct (registered_pending _ Hinv _ _ Hreg') as (? & ? & ? & ?).
    destruct (registered_pending _ Hinv _ _ Hreg) as (? & ? & ? & ?).
    congruence.
Qed.

(** X5.  Debouncing is per document: two calls of [lintWithDebounce] in a
    row for two different documents do not cancel each other; once the
    delay has passed, the callback of each has run exactly once. *)
Theorem debounce_per_document (env : Env) (st : State)
    (a b : TextDocument) (ms : Z) :
  reachable st ->
  uri a <> uri b ->
  timeoutDelay (debounceTime st) <= ms ->
  let st2 := perform env (LintWithDebounce b)
               (perform env (LintWithDebounce a) st) in
  let st3 := perform env (Wait ms) st2 in
  (exists timerA timerB dueA dueB,
     timerA <> timerB
     /\ armed (uri a) timerA dueA a st2 /\ armed (uri b) timerB dueB b st2)
  /\ ranFor (uri a) (fired st3) = ranFor (uri a) (fired st) ++ [a]
  /\ ranFor (uri b) (fired st3) = ranFor (uri b) (fired st) ++ [b].
Proof.
  intros Hinv%reachable_invariant Hne Hms st2 st3.
  set (st1 := perform env (LintWithDebounce a) st) in *.
  set (due := now st + timeoutDelay (debounceTime st)).
  assert (invariant st1) as Hinv1 by by apply lintWithDebounce_invariant.
  assert (invariant st2) as Hinv2 by by apply lintWithDebounce_invariant.
  assert (now st1 = now st /\ debounceTime st1 = debounceTime st
          /\ fired st1 = fired st) as (Hnow1 & Hdelay1 & Hfired1)
    by (unfold st1; simpl; by rewrite lintWithDebounce_returns).
  assert (now st2 = now st1 /\ debounceTime st2 = debounceTime st1
          /\ fired st2 = fired st1) as (Hnow2 & Hdelay2 & Hfired2)
    by (unfold st2; simpl; by rewrite lintWithDebounce_returns).
  assert (armed (uri a) (nextTimer st) due a st1) as HarmedA.
  { unfold due. rewrite <- Hnow1, <- Hdelay1.
    exact (proj1 (lintWithDebounce_armed a st)). }
  assert (armed (uri b) (nextTimer st1) due b st2) as HarmedB.
  { unfold due. rewrite <- Hnow1, <- Hdelay1, <- Hnow2, <- Hdelay2.
    exact (proj1 (lintWithDebounce_armed b st1)). }
  assert (armed (uri a) (nextTimer st) due a st2) as HarmedA2
    by exact (lintWithDebounce_other b st1 _ _ _ _ Hinv1 HarmedA
                (not_eq_sym Hne)).
  split.
  { eexists _, _, _, _. split; [|split; [exact HarmedA2|exact HarmedB]].
    intros Heq. destruct HarmedA2 as [_ Hp], HarmedB as [_ Hp'].
    rewrite Heq in Hp. rewrite Hp in Hp'. injection Hp' as Hab.
    by rewrite Hab in Hne. }
  assert (fired st2 = fired st) as Hf by congruence.
  assert (due <= now st2 + ms) as Hdue by (unfold due; lia).
  unfold st3.
  change (perform env (Wait ms) st2) with (advance env (now st2 + ms) st2).
  unfold advance. clearbody st2 st1. simpl.
  split.
  - destruct (runDue_own env (uri a) _ _ _ (size (timers st2)) (now st2 + ms) st2
                Hinv2 HarmedA2) as [_ ->]; [done|done|].
    by rewrite Hf.
  - destruct (runDue_own env (uri b) _ _ _ (size (timers st2)) (now st2 + ms) st2
                Hinv2 HarmedB) as [_ ->]; [done|done|].
    by rewrite Hf.
Qed.

Lemma debounce_per_document_witness :
  let st3 := perform sampleEnv (Wait 300)
               (perform sampleEnv (LintWithDebounce otherDocument)
                  (perform sampleEnv (LintWithDebounce sampleDocument)
                     (constructed sampleEnv))) in
  ranFor (uri sampleDocument) (fired st3) = [sampleDocument]
  /\ ranFor (uri otherDocument) (fired st3) = [otherDocument].
Proof.
  destruct (debounce_per_document sampleEnv (constructed sampleEnv)
              sampleDocument otherDocument 300
              (reachable_constructed sampleEnv))
    as (_ & HranA & HranB); [done|vm_compute; discriminate|].
  split; [exact HranA|exact HranB].
Defined.



(** ** The cache between settings changes *)

Lemma stored_keeps (key key' : string) (cfg cached : YamlLintConfig) (st : State) :
  configCache st !! key' = Some (Some cached) ->
  (forall c, configCache st !! key <> Some (Some c)) ->
  configCache (stored key cfg st) !! key' = Some (Some cached).
Proof.
  intros Hhit Hmiss. rewrite stored_lookup_ne; [done|].
  intros ->. by apply (Hmiss cached).
Qed.

Lemma fromSource_keeps (env : Env) (mustExist : bool) (path : string)
    (st : State) cfg st' key cached :
  fromSource env mustExist path st = Some (cfg, st') ->
  configCache st !! key = Some (Some cached) ->
  configCache st' !! key = Some (Some cached).
Proof.
  unfold fromSource. intros Hsrc Hhit.
  destruct (configCache st !! path) as [[c|]|] eqn:Hpath.
  - by injection Hsrc as <- <-.
  - destruct (mustExist && negb (existsSync env path)); [done|].
    destruct (fromFile env path); [|done]. injection Hsrc as <- <-.
    apply stored_keeps; [done|]. congruence.
  - destruct (mustExist && negb (existsSync env path)); [done|].
    destruct (fromFile env path); [|done]. injection Hsrc as <- <-.
    apply stored_keeps; [done|]. congruence.
Qed.

Lemma firstCandidate_keeps (env : Env) (paths : list string)
    (st : State) cfg st' key cached :
  firstCandidate env paths st = Some (cfg, st') ->
  configCache st !! key = Some (Some cached) ->
  configCache st' !! key = Some (Some cached).
Proof.
  induction paths as [|path paths IH]; [done|]. simpl.
  destruct (fromSource env true path st) as [[cfg0 st0]|] eqn:Hsrc; [|done].
  intros [= <- <-]. by eapply fromSource_keeps.
Qed.

Lemma fromDefault_keeps (env : Env) (st : State) o st' key cached :
  fromDefault env st = (o, st') ->
  configCache st !! key = Some (Some cached) ->
  configCache st' !! key = Some (Some cached).
Proof.
  unfold fromDefault. intros Hdef Hhit.
  destruct (configCache st !! "__default__") as [[c|]|] eqn:Hpath.
  - by injection Hdef as <- <-.
  - destruct (parseConfig env DEFAULT_CONFIG); injection Hdef as <- <-; [|done].
    apply stored_keeps; [done|]. congruence.
  - destruct (parseConfig env DEFAULT_CONFIG); injection Hdef as <- <-; [|done].
    apply stored_keeps; [done|]. congruence.
Qed.

(** A resolution keeps what is cached. *)
Lemma getYamlLintConfig_keeps (env : Env) (document : TextDocument) (st : State)
    (o : Outcome YamlLintConfig) (st' : State) :
  getYamlLintConfig env document st = (o, st') -> cacheKept st st'.
Proof.
  intros Hrun key cached Hhit. revert Hrun. rewrite getYamlLintConfig_order.
  destruct (if decide (config env = "") then None
            else fromSource env false
                   (resolvedPath env (workspacePathOf env document)) st)
    as [[cfg st1]|] eqn:Huser.
  { intros [= <- <-]. case_decide; [done|]. by eapply fromSource_keeps. }
  destruct (firstCandidate env (candidates env (workspacePathOf env document)) st)
    as [[cfg st1]|] eqn:Hcand.
  { intros [= <- <-]. by eapply firstCandidate_keeps. }
  intros Hdef. by eapply fromDefault_keeps.
Qed.

(** X7.  A resolution only adds to the cache: a config that is cached
    stays cached, under the same key and as the same object; at most one
    object is constructed, and all entries but at most one are as before.
    The diagnostics and the timers are not touched. *)
Theorem cache_only_grows (env : Env) (document : TextDocument) (st : State)
    (o : Outcome YamlLintConfig) (st' : State) :
  getYamlLintConfig env document st = (o, st') ->
  (forall key cached,
     configCache st !! key = Some (Some cached) ->
     configCache st' !! key = Some (Some cached))
  /\ (nextObject st <= nextObject st' <= S (nextObject st))%nat
  /\ (exists key, forall key', key' <> key ->
        configCache st' !! key' = configCache st !! key')
  /\ diagnosticCollection st' = diagnosticCollection st
  /\ debounceTimers st' = debounceTimers st
  /\ timers st' = timers st.
Proof.
  intros Hrun. split; [exact (getYamlLintConfig_keeps _ _ _ _ _ Hrun)|].
  destruct (getYamlLintConfig_sameTimers _ _ _ _ _ Hrun)
    as ((Hd & Ht & _) & Hdiag & _).
  destruct (getYamlLintConfig_writes _ _ _ _ _ Hrun)
    as [->|(key & cfg & _ & _ & -> & _)].
  - split; [lia|]. split; [by exists ""|]. done.
  - split; [simpl; lia|]. split; [|done].
    exists key. intros key' Hne. by apply stored_lookup_ne.
Qed.

Lemma cache_only_grows_witness :
  let st := (lint sampleEnv sampleDocument (constructed sampleEnv)).2 in
  configCache (getYamlLintConfig collidingEnv oneLineDocument st).2
    !! "/work/.yamllint.yml"
  = Some (Some {| ref := 0; rules := "rules of /work/.yamllint.yml" |})
  /\ nextObject (getYamlLintConfig collidingEnv oneLineDocument st).2 = 2%nat.
Proof.
  intros st.
  destruct (cache_only_grows collidingEnv oneLineDocument st _ _
              (surjective_pairing _)) as (Hkeeps & _).
  split; [|vm_compute; reflexivity].
  apply Hkeeps. vm_compute. reflexivity.
Defined.

(** What the provider does between two clearings of the cache keeps what
    is cached. *)
Lemma cacheKept_refl (st : State) : cacheKept st st.
Proof. by intros key cached. Qed.

Lemma cacheKept_trans (st st' st'' : State) :
  cacheKept st st' -> cacheKept st' st'' -> cacheKept st st''.
Proof. intros H1 H2 key cached Hhit. by apply H2, H1. Qed.

Lemma cacheKept_same (st st' : State) :
  configCache st' = configCache st -> cacheKept st st'.
Proof. intros Heq key cached. by rewrite Heq. Qed.

Lemma lint_keeps (env : Env) (document : TextDocument) (st : State) :
  cacheKept st (lint env document st).2.
Proof.
  unfold lint. destruct (enable env); simpl.
  - unfold try. rewrite lintBody_steps.
    destruct (getYamlLintConfig env document st) as [[yamlConfig|e] st1] eqn:Hcfg;
      apply getYamlLintConfig_keeps in Hcfg; [|exact Hcfg].
    destruct (runAll env (getText document) yamlConfig (fsPath document))
      as [problems|e]; [|exact Hcfg].
    by destruct (mapM_problemToDiagnostic document problems st1)
      as (diagnostics & -> & _).
  - apply cacheKept_same. by destruct (clear_effect document st) as [-> _].
Qed.

Lemma fire_keeps (env : Env) (timer : nat) (st : State) :
  cacheKept st (fire env timer st).
Proof.
  unfold fire. destruct (timers st !! timer) as [[due document]|];
    [|apply cacheKept_refl].
  unfold debounced, bind, modify.
  eapply cacheKept_trans; [|apply lint_keeps]. by apply cacheKept_same.
Qed.

Lemma runDue_keeps (env : Env) (fuel : nat) (t : Z) (st : State) :
  cacheKept st (runDue env fuel t st).
Proof.
  revert st. induction fuel as [|fuel IH]; intros st; [apply cacheKept_refl|].
  simpl. destruct (nextDue t st) as [[timer ?]|]; [|apply cacheKept_refl].
  eapply cacheKept_trans; [apply fire_keeps|apply IH].
Qed.

Lemma perform_keeps (env : Env) (a : Action) (st : State) :
  clearsCache a = false -> cacheKept st (perform env a st).
Proof.
  destruct a as [d|d|d| | |timer|ms]; try done; intros _; simpl.
  - apply lint_keeps.
  - apply cacheKept_same. by rewrite lintWithDebounce_returns.
  - apply cacheKept_same. by destruct (clear_effect d st) as [-> _].
  - apply fire_keeps.
  - unfold advance. eapply cacheKept_trans; [apply runDue_keeps|].
    by apply cacheKept_same.
Qed.

Lemma followsCached_keeps (st st' : State) :
  followsCached st st' -> cacheKept st st'.
Proof.
  induction 1 as [|env a st' _ IH Ha]; [apply cacheKept_refl|].
  eapply cacheKept_trans; [exact IH|by apply perform_keeps].
Qed.

(** X8.  A user-specified config that was loaded is kept: the resolution
    that loads the file of the user-specified path returns a new object
    and caches it; in every state that follows by calls that do not clear
    the cache (lint passes of any document, debounced calls, clears, timer
    callbacks, the passing of time) the object is still cached, and every
    resolution there that resolves to the same path returns that object and
    writes nothing, whatever the file system and the engine answer then: a
    changed, broken or deleted file is not noticed.  Only after
    [updateConfiguration] has cleared the cache is the file loaded again. *)
Theorem loaded_user_config_is_kept (env env2 : Env)
    (document document2 : TextDocument) (st st2 : State) (r : string) :
  let path := resolvedPath env (workspacePathOf env document) in
  let cfg := {| ref := nextObject st; rules := r |} in
  let st1 := stored path cfg st in
  config env <> "" ->
  (forall c, configCache st !! path <> Some (Some c)) ->
  fromFile env path = Ok r ->
  followsCached st1 st2 ->
  config env2 <> "" ->
  resolvedPath env2 (workspacePathOf env2 document2) = path ->
  getYamlLintConfig env document st = (Ok cfg, st1)
  /\ configCache st2 !! path = Some (Some cfg)
  /\ getYamlLintConfig env2 document2 st2 = (Ok cfg, st2)
  /\ (forall r2,
        fromFile env2 path = Ok r2 ->
        let st3 := perform env2 UpdateConfiguration st2 in
        let cfg2 := {| ref := nextObject st2; rules := r2 |} in
        getYamlLintConfig env2 document2 st3 = (Ok cfg2, stored path cfg2 st3)).
Proof.
  intros path cfg st1 Hset Hmiss Hload Hfollows Hset2 Hpath.
  assert (fromSource env false path st = Some (cfg, st1)) as Hsrc.
  { unfold fromSource. rewrite Hload. simpl.
    destruct (configCache st !! path) as [[c|]|] eqn:Hcached; [|done|done].
    by destruct (Hmiss c). }
  assert (configCache st2 !! path = Some (Some cfg)) as Hkept.
  { apply (followsCached_keeps st1 st2 Hfollows). apply stored_lookup. }
  split; [|split; [exact Hkept|split]].
  - rewrite getYamlLintConfig_order. fold path.
    by rewrite decide_False, Hsrc.
  - rewrite getYamlLintConfig_order, Hpath.
    rewrite decide_False by done.
    by rewrite (fromSource_hit _ _ _ cfg st2 Hkept).
  - intros r2 Hload2 st3 cfg2.
    rewrite getYamlLintConfig_order, Hpath.
    rewrite decide_False by done.
    unfold fromSource. rewrite Hload2. done.
Qed.

(** The file [__default__] is loaded (no workspace folder); another
    document is linted, a change is debounced and its callback runs, all
    after the file has been deleted: the resolution still returns the
    object that was loaded. *)
Lemma loaded_user_config_is_kept_witness :
  let cfg := {| ref := 0; rules := "rules of the file __default__" |} in
  let st1 := stored "__default__" cfg (constructed collidingEnvLater) in
  let st2 := perform collidingEnv (Wait 300)
               (perform collidingEnv (LintWithDebounce sampleDocument)
                  (perform collidingEnv (Lint otherDocument) st1)) in
  getYamlLintConfig collidingEnvLater oneLineDocument (constructed collidingEnvLater)
  = (Ok cfg, st1)
  /\ fromFile collidingEnv "__default__" = Throw (ENOENT "__default__")
  /\ getYamlLintConfig collidingEnv sampleDocument st2 = (Ok cfg, st2).
Proof.
  intros cfg st1 st2.
  destruct (loaded_user_config_is_kept collidingEnvLater collidingEnv
              oneLineDocument sampleDocument
              (constructed collidingEnvLater) st2 "rules of the file __default__")
    as (Hfirst & _ & Hlater & _); try reflexivity; try done.
  unfold st2. repeat (apply followsCached_perform; [|reflexivity]).
  apply followsCached_refl.
Defined.

(** A resolution does not read the diagnostics. *)
Lemma fromSource_withDiagnostics (env : Env) (mustExist : bool) (path : string)
    f (st : State) :
  fromSource env mustExist path (withDiagnostics f st)
  = match fromSource env mustExist path st with
    | Some (cfg, st') => Some (cfg, withDiagnostics f st')
    | None => None
    end.
Proof.
  unfold fromSource. simpl.
  destruct (configCache st !! path) as [[c|]|]; [done| |];
    (destruct (mustExist && negb (existsSync env path)); [done|]);
    destruct (fromFile env path); done.
Qed.

Lemma firstCandidate_withDiagnostics (env : Env) (paths : list string)
    f (st : State) :
  firstCandidate env paths (withDiagnostics f st)
  = match firstCandidate env paths st with
    | Some (cfg, st') => Some (cfg, withDiagnostics f st')
    | None => None
    end.
Proof.
  induction paths as [|path paths IH]; [done|]. simpl.
  rewrite fromSource_withDiagnostics.
  by destruct (fromSource env true path st) as [[cfg st']|].
Qed.

Lemma getYamlLintConfig_withDiagnostics (env : Env) (document : TextDocument)
    f (st : State) :
  getYamlLintConfig env document (withDiagnostics f st)
  = ((getYamlLintConfig env document st).1,
     withDiagnostics f (getYamlLintConfig env document st).2).
Proof.
  rewrite !getYamlLintConfig_order.
  case_decide.
  - rewrite firstCandidate_withDiagnostics.
    destruct (firstCandidate env _ st) as [[cfg st']|]; [done|].
    unfold fromDefault. simpl.
    destruct (configCache st !! "__default__") as [[c|]|]; [done| |];
      destruct (parseConfig env DEFAULT_CONFIG); done.
  - rewrite fromSource_withDiagnostics.
    destruct (fromSource env false _ st) as [[cfg st']|]; [done|].
    rewrite firstCandidate_withDiagnostics.
    destruct (firstCandidate env _ st) as [[cfg st']|]; [done|].
    unfold fromDefault. simpl.
    destruct (configCache st !! "__default__") as [[c|]|]; [done| |];
      destruct (parseConfig env DEFAULT_CONFIG); done.
Qed.

(** X9.  A failure of the engine does not undo the resolution: when the
    engine throws after the config was resolved, [lint] publishes the
    error diagnostic and the config stays cached, so that the next
    resolution returns the same object and loads nothing. *)
Theorem failed_lint_keeps_config (env : Env) (document : TextDocument)
    (st : State) (cfg : YamlLintConfig) (st1 : State) (e : Thrown) :
  enable env = true ->
  getYamlLintConfig env document st = (Ok cfg, st1) ->
  runAll env (getText document) cfg (fsPath document) = Throw e ->
  let st' := (lint env document st).2 in
  st' = withDiagnostics (insert (uri document) [errorDiagnostic e]) st1
  /\ (exists key, configCache st' !! key = Some (Some cfg))
  /\ getYamlLintConfig env document st' = (Ok cfg, st').
Proof.
  intros Hon Hcfg Hrun st'.
  assert (st' = withDiagnostics (insert (uri document) [errorDiagnostic e]) st1)
    as ->.
  { unfold st', lint. rewrite Hon. simpl. unfold try.
    by rewrite lintBody_steps, Hcfg, Hrun. }
  split; [done|].
  pose proof (getYamlLintConfig_again _ _ _ _ _ Hcfg) as Hagain.
  split.
  - revert Hcfg. clear. intros Hcfg. simpl.
    revert Hcfg. rewrite getYamlLintConfig_order.
    destruct (if decide (config env = "") then None else _)
      as [[cfg1 st1']|] eqn:Huser.
    { intros [= <- <-]. case_decide; [done|].
      apply fromSource_resolvedAt in Huser as [Hhit _]. eauto. }
    destruct (firstCandidate env _ st) as [[cfg1 st1']|] eqn:Hcand.
    { intros [= <- <-].
      destruct (firstCandidate_resolvedAt _ _ _ _ _ Hcand) as (key & _ & Hhit & _).
      eauto. }
    intros Hdef. apply fromDefault_resolvedAt in Hdef as [Hhit _]. eauto.
  - by rewrite getYamlLintConfig_withDiagnostics, Hagain.
Qed.

Lemma failed_lint_keeps_config_witness :
  let st' := (lint brokenEnv sampleDocument (constructed brokenEnv)).2 in
  getYamlLintConfig brokenEnv sampleDocument st'
  = (Ok {| ref := 0; rules := "rules of /work/.yamllint.yml" |}, st').
Proof.
  intros st'.
  apply (failed_lint_keeps_config brokenEnv sampleDocument (constructed brokenEnv)
           {| ref := 0; rules := "rules of /work/.yamllint.yml" |}
           (stored "/work/.yamllint.yml"
              {| ref := 0; rules := "rules of /work/.yamllint.yml" |}
              (constructed brokenEnv))
           (ErrorObject "unexpected token")).
  - reflexivity.
  - vm_compute. reflexivity.
  - reflexivity.
Defined.

(** ** From the last keystroke to the diagnostics *)

Lemma lint_publishes (env : Env) (document : TextDocument) (st : State) :
  enable env = true ->
  exists diagnostics,
    diagnosticCollection (lint env document st).2 !! uri document
    = Some diagnostics
    /\ publishedBy env document diagnostics.
Proof.
  intros Hon. unfold lint. rewrite Hon. simpl. unfold try.
  rewrite lintBody_steps.
  destruct (getYamlLintConfig env document st) as [[yamlConfig|e] st1].
  - destruct (runAll env (getText document) yamlConfig (fsPath document))
      as [problems|e] eqn:Hrun.
    + destruct (mapM_problemToDiagnostic document problems st1)
        as (diagnostics & -> & Hall).
      exists diagnostics. simpl. split; [apply lookup_insert_eq|].
      left. eauto.
    + eexists. simpl. split; [apply lookup_insert_eq|]. right. eauto.
  - eexists. simpl. split; [apply lookup_insert_eq|]. right. eauto.
Qed.

Lemma fire_diagnostics_other (env : Env) (timer : nat) (st : State) (u : string)
    (due : Z) (d : TextDocument) :
  timers st !! timer = Some (due, d) ->
  uri d <> u ->
  diagnosticCollection (fire env timer st) !! u = diagnosticCollection st !! u.
Proof.
  intros Hpending Hne. unfold fire. rewrite Hpending.
  unfold debounced, bind, modify.
  by rewrite lint_diagnostics_other.
Qed.

Lemma fire_diagnostics_own (env : Env) (timer : nat) (st : State)
    (due : Z) (d : TextDocument) :
  timers st !! timer = Some (due, d) ->
  (enable env = true ->
   exists diagnostics,
     diagnosticCollection (fire env timer st) !! uri d = Some diagnostics
     /\ publishedBy env d diagnostics)
  /\ (enable env = false ->
      diagnosticCollection (fire env timer st) !! uri d = None).
Proof.
  intros Hpending. unfold fire. rewrite Hpending.
  unfold debounced, bind, modify. split; intros Hon.
  - by apply lint_publishes.
  - unfold lint. rewrite Hon. simpl. rewrite clear_returns. simpl.
    rewrite lookup_delete_eq. simpl. apply lookup_delete_eq.
Qed.

Lemma runDue_unarmed_diagnostics (env : Env) (u : string) (fuel : nat) (t : Z)
    (st : State) :
  invariant st ->
  debounceTimers st !! u = None ->
  diagnosticCollection (runDue env fuel t st) !! u = diagnosticCollection st !! u.
Proof.
  revert st. induction fuel as [|fuel IH]; intros st Hinv Hnone; [done|].
  simpl. destruct (nextDue t st) as [[timer' [due' document']]|] eqn:Hnext;
    [|done].
  apply nextDue_Some in Hnext as [Hpending' _].
  assert (uri document' <> u) as Hu.
  { intros <-. apply (pending_registered _ Hinv) in Hpending'. congruence. }
  destruct (fire_effect env timer' due' document' st Hpending')
    as [(H1 & _) _].
  rewrite IH.
  - by eapply fire_diagnostics_other.
  - by apply fire_invariant.
  - rewrite H1. by rewrite lookup_delete_ne.
Qed.

Lemma runDue_own_diagnostics (env : Env) (u : string) (timer : nat) (due : Z)
    (document : TextDocument) (fuel : nat) (t : Z) (st : State) :
  invariant st ->
  armed u timer due document st ->
  due <= t ->
  (size (timers st) <= fuel)%nat ->
  let st' := runDue env fuel t st in
  (enable env = true ->
   exists diagnostics,
     diagnosticCollection st' !! u = Some diagnostics
     /\ publishedBy env document diagnostics)
  /\ (enable env = false -> diagnosticCollection st' !! u = None).
Proof.
  revert st. induction fuel as [|fuel IH]; intros st Hinv Harmed Ht Hfuel.
  { destruct Harmed as [_ Hpending].
    assert (size (timers st) <> 0)%nat; [|lia].
    apply map_size_ne_0_lookup. eauto. }
  simpl. destruct (nextDue t st) as [[timer' [due' document']]|] eqn:Hnext.
  - apply nextDue_Some in Hnext as [Hpending' Hdue'].
    destruct (decide (timer' = timer)) as [->|Hne].
    + destruct (fire_own env u timer due document st) as [Hnone _]; [done..|].
      pose proof Harmed as [Hreg Hp].
      assert (uri document = u) as Hu.
      { destruct (registered_pending _ Hinv _ _ Hreg) as (? & ? & ? & ?).
        congruence. }
      rewrite runDue_unarmed_diagnostics;
        [|by apply fire_invariant|done].
      rewrite <- Hu.
      by apply (fire_diagnostics_own env timer st due document).
    + destruct (fire_other env u timer due document timer' due' document' st)
        as (Harmed' & _ & _ & Hsize); [done..|].
      apply IH; [by apply fire_invariant|done|done|lia].
  - destruct Harmed as [_ Hpending].
    pose proof (nextDue_None _ _ Hnext _ _ _ Hpending). lia.
Qed.

(** Once the timer of [u] is due: the timeouts that run before it ([k] of
    them) are those of other documents, and what is published for [u] when
    all have run is what the callback of the timer left. *)
Lemma runDue_own_lint (env : Env) (u : string) (timer : nat) (due : Z)
    (document : TextDocument) (fuel : nat) (t : Z) (st : State) :
  invariant st ->
  armed u timer due document st ->
  due <= t ->
  (size (timers st) <= fuel)%nat ->
  exists k : nat,
    armed u timer due document (runDue env k t st)
    /\ nextDue t (runDue env k t st) = Some (timer, (due, document))
    /\ ranFor u (fired (runDue env k t st)) = ranFor u (fired st)
    /\ diagnosticCollection (runDue env fuel t st) !! u
       = diagnosticCollection (fire env timer (runDue env k t st)) !! u.
Proof.
  revert st. induction fuel as [|fuel IH]; intros st Hinv Harmed Ht Hfuel.
  { destruct Harmed as [_ Hpending].
    assert (size (timers st) <> 0)%nat; [|lia].
    apply map_size_ne_0_lookup. eauto. }
  simpl. destruct (nextDue t st) as [[timer' [due' document']]|] eqn:Hnext.
  - pose proof Hnext as [Hpending' Hdue']%nextDue_Some.
    destruct (decide (timer' = timer)) as [->|Hne].
    + exists 0%nat. simpl. split; [done|].
      split; [destruct Harmed as [_ Hp]; congruence|]. split; [done|].
      destruct (fire_own env u timer due document st) as [Hnone _]; [done..|].
      apply runDue_unarmed_diagnostics; [by apply fire_invariant|done].
    + destruct (fire_other env u timer due document timer' due' document' st)
        as (Harmed' & Hran & _ & Hsize); [done..|].
      destruct (IH (fire env timer' st)) as (k & Harmedk & Hnextk & Hrank & Hdiag);
        [by apply fire_invariant|done|done|lia|].
      exists (S k). simpl. rewrite Hnext.
      split; [done|]. split; [done|]. split; [congruence|done].
  - destruct Harmed as [_ Hpending].
    pose proof (nextDue_None _ _ Hnext _ _ _ Hpending). lia.
Qed.

(** X10.  From a burst of changes to the diagnostics: after calls of
    [lintWithDebounce] for one document, each less than the delay after
    the one before, and a wait of the delay, what is published for the
    document is what one call of [lint] for the document of the last call
    published: the call that the callback of the last timer made, in the
    state [ran] in which that callback ran, which is the state after the
    burst once the [k] timeouts of other documents that were due earlier
    have run and the timer is the next to run.  No callback ran for the
    document before, and that one ran once.  So with linting enabled the diagnostics are those mapped from
    the engine's problems for the text of that document or the single
    error diagnostic, and with linting disabled there are none. *)
Theorem burst_publishes_last (env : Env) (st : State) (document : TextDocument)
    (calls : list (Z * TextDocument)) (ms : Z) :
  reachable st ->
  let u := uri document in
  let delay := timeoutDelay (debounceTime st) in
  (forall entry, entry ∈ calls -> uri entry.2 = u /\ entry.1 < delay) ->
  delay <= ms ->
  let burst := rapid env calls (perform env (LintWithDebounce document) st) in
  let final := perform env (Wait ms) burst in
  let lastDocument := default document (last calls.*2) in
  (exists (k timer : nat),
     let before := runDue env k (now burst + ms) burst in
     let ran :=
       withDebounceTimers (delete u)
         (withFired (fun log => log ++ [(timer, lastDocument)])
            (withNow (Z.max (now before) (now burst + delay))
               (withTimers (delete timer) before))) in
     armed u timer (now burst + delay) lastDocument before
     /\ nextDue (now burst + ms) before
        = Some (timer, (now burst + delay, lastDocument))
     /\ ranFor u (fired before) = ranFor u (fired st)
     /\ fire env timer before = (lint env lastDocument ran).2
     /\ diagnosticCollection final !! u
        = diagnosticCollection (lint env lastDocument ran).2 !! u)
  /\ ranFor u (fired final) = ranFor u (fired st) ++ [lastDocument]
  /\ (enable env = true ->
      exists diagnostics,
        diagnosticCollection final !! u = Some diagnostics
        /\ publishedBy env lastDocument diagnostics)
  /\ (enable env = false -> diagnosticCollection final !! u = None).
Proof.
  intros Hinv%reachable_invariant u delay Hcalls Hms burst final lastDocument.
  set (st1 := perform env (LintWithDebounce document) st) in *.
  assert (invariant st1) as Hinv1 by by apply lintWithDebounce_invariant.
  assert (debounceTime st1 = debounceTime st /\ fired st1 = fired st)
    as [Hdelay Hfired]
    by (unfold st1; simpl; by rewrite lintWithDebounce_returns).
  destruct (rapid_armed env calls st1 u (nextTimer st) document)
    as (Hinv2 & [timer Harmed2] & Hran2 & Hdelay2); [done| | |].
  { exact (proj1 (lintWithDebounce_armed document st)). }
  { intros entry Hin. rewrite Hdelay. by apply Hcalls. }
  fold burst lastDocument in Hinv2, Harmed2, Hran2, Hdelay2.
  assert (timeoutDelay (debounceTime burst) = delay) as Hd
    by (unfold delay; congruence).
  rewrite Hd in Harmed2. rewrite Hfired in Hran2.
  unfold final.
  change (perform env (Wait ms) burst) with (advance env (now burst + ms) burst).
  unfold advance. clearbody burst st1. simpl.
  split; [|split].
  - destruct (runDue_own_lint env u timer (now burst + delay) lastDocument
                (size (timers burst)) (now burst + ms) burst)
      as (k & Harmedk & Hnextk & Hrank & Hdiag); [done|done|lia|done|].
    exists k, timer. cbv zeta.
    assert (fire env timer (runDue env k (now burst + ms) burst)
            = (lint env lastDocument
                 (withDebounceTimers (delete u)
                    (withFired (fun log => log ++ [(timer, lastDocument)])
                       (withNow (Z.max (now (runDue env k (now burst + ms) burst))
                                   (now burst + delay))
                          (withTimers (delete timer)
                             (runDue env k (now burst + ms) burst)))))).2)
      as Hfire.
    { unfold fire. rewrite (proj2 Harmedk).
      unfold debounced, bind, modify.
      assert (uri lastDocument = u) as ->; [|done].
      destruct (registered_pending _ Hinv2 _ _ (proj1 Harmed2))
        as (? & ? & ? & ?).
      destruct Harmed2 as [_ Hp]. congruence. }
    split; [done|]. split; [done|]. split; [congruence|]. split; [done|].
    by rewrite <- Hfire.
  - destruct (runDue_own env u timer (now burst + delay) lastDocument
                (size (timers burst)) (now burst + ms) burst)
      as [_ ->]; [done|done|lia|done|]. by rewrite Hran2.
  - apply (runDue_own_diagnostics env u timer (now burst + delay) lastDocument);
      [done|done|lia|done].
Qed.

(** Three changes of the sample document, 100 ms and 250 ms apart, the
    last after an edit that left one line: 300 ms later the diagnostics
    are those of the edited document, the single problem at the end of its
    line. *)
Lemma burst_publishes_last_witness :
  let final := perform sampleEnv (Wait 300)
                 (rapid sampleEnv [(100, sampleDocument); (250, editedDocument)]
                    (perform sampleEnv (LintWithDebounce sampleDocument)
                       (constructed sampleEnv))) in
  ranFor (uri sampleDocument) (fired final) = [editedDocument]
  /\ exists d,
       problemToDiagnostic noNewLineAtEnd editedDocument = Ok d
       /\ diagnosticCollection final !! uri sampleDocument = Some [d].
Proof.
  destruct (burst_publishes_last sampleEnv (constructed sampleEnv) sampleDocument
              [(100, sampleDocument); (250, editedDocument)] 300
              (reachable_constructed sampleEnv)) as (_ & Hran & _).
  - intros entry Hin. vm_compute.
    repeat (apply elem_of_cons in Hin as [->|Hin]; [done|]).
    by apply elem_of_nil in Hin.
  - vm_compute. discriminate.
  - split; [exact Hran|]. eexists. split; vm_compute; reflexivity.
Defined.

(** * Properties of the extension *)

(** ** Linting several documents in a row *)

Lemma lint_debounceTime (env : Env) (document : TextDocument) (st : State) :
  debounceTime (lint env document st).2 = debounceTime st.
Proof.
  destruct (enable env) eqn:Hon.
  - by destruct (lint_enabled_sameTimers env document st Hon)
      as [(_ & _ & _ & _ & _ & ->) _].
  - unfold lint. rewrite Hon. simpl. rewrite clear_returns. simpl.
    by destruct (debounceTimers st !! uri document).
Qed.

Lemma lintAll_reachable (env : Env) (documents : list TextDocument) (st : State) :
  reachable st -> reachable (lintAll env documents st).
Proof.
  revert st. induction documents as [|d documents IH]; intros st Hreach; [done|].
  simpl. apply IH. exact (reachable_perform env (Lint d) st Hreach).
Qed.

Lemma lintAll_debounceTime (env : Env) (documents : list TextDocument)
    (st : State) :
  debounceTime (lintAll env documents st) = debounceTime st.
Proof.
  revert st. induction documents as [|d documents IH]; intros st; [done|].
  simpl. by rewrite IH, lint_debounceTime.
Qed.

(** The documents that are not in the list keep their diagnostics. *)
Lemma lintAll_other (env : Env) (documents : list TextDocument) (st : State)
    (u : string) :
  (forall d, d ∈ documents -> uri d <> u) ->
  diagnosticCollection (lintAll env documents st) !! u
  = diagnosticCollection st !! u.
Proof.
  revert st. induction documents as [|d documents IH]; intros st Hother; [done|].
  simpl. rewrite IH by (intros d' Hin; apply Hother; by right).
  apply lint_diagnostics_other. apply not_eq_sym, Hother. left.
Qed.

(** With linting enabled, each document of the list has the diagnostics of
    a lint pass on a document of the list with its identity. *)
Lemma lintAll_publishes (env : Env) (documents : list TextDocument) (st : State)
    (d : TextDocument) :
  enable env = true ->
  d ∈ documents ->
  exists d' diagnostics,
    d' ∈ documents /\ uri d' = uri d
    /\ diagnosticCollection (lintAll env documents st) !! uri d = Some diagnostics
    /\ publishedBy env d' diagnostics.
Proof.
  intros Hon.
  assert (forall documents0 st0,
            (forall d0, d0 ∈ documents0 -> d0 ∈ documents) ->
            (exists d' diagnostics,
               d' ∈ documents /\ uri d' = uri d
               /\ diagnosticCollection st0 !! uri d = Some diagnostics
               /\ publishedBy env d' diagnostics) ->
            exists d' diagnostics,
              d' ∈ documents /\ uri d' = uri d
              /\ diagnosticCollection (lintAll env documents0 st0) !! uri d
                 = Some diagnostics
              /\ publishedBy env d' diagnostics) as Hkeep.
  { induction documents0 as [|d0 documents0 IH]; intros st0 Hsub Hgood; [done|].
    simpl. apply IH; [intros d1 Hin; apply Hsub; by right|].
    destruct (decide (uri d0 = uri d)) as [Heq|Hne].
    - destruct (lint_publishes env d0 st0 Hon) as (diagnostics & Hlook & Hpub).
      exists d0, diagnostics. rewrite <- Heq.
      split; [apply Hsub; left|]. done.
    - destruct Hgood as (d' & diagnostics & Hin & Hu & Hlook & Hpub).
      exists d', diagnostics. rewrite lint_diagnostics_other by done. done. }
  assert (forall documents0 st0,
            (forall d0, d0 ∈ documents0 -> d0 ∈ documents) ->
            d ∈ documents0 ->
            exists d' diagnostics,
              d' ∈ documents /\ uri d' = uri d
              /\ diagnosticCollection (lintAll env documents0 st0) !! uri d
                 = Some diagnostics
              /\ publishedBy env d' diagnostics) as Hfind.
  { induction documents0 as [|d0 documents0 IH]; intros st0 Hsub Hin;
      [by apply elem_of_nil in Hin|].
    simpl. apply elem_of_cons in Hin as [->|Hin].
    - apply Hkeep; [intros d1 Hin; apply Hsub; by right|].
      destruct (lint_publishes env d0 st0 Hon) as (diagnostics & Hlook & Hpub).
      exists d0, diagnostics. split; [apply Hsub; left|]. done.
    - apply IH; [intros d1 Hin1; apply Hsub; by right|done]. }
  intros Hin. by apply Hfind.
Qed.

(** With linting disabled, each document of the list ends without
    diagnostics and without timer. *)
Lemma lintAll_clears (env : Env) (documents : list TextDocument) (st : State)
    (d : TextDocument) :
  enable env = false ->
  d ∈ documents ->
  diagnosticCollection (lintAll env documents st) !! uri d = None
  /\ debounceTimers (lintAll env documents st) !! uri d = None.
Proof.
  intros Hoff.
  assert (forall d0 st0,
            diagnosticCollection st0 !! uri d = None
            /\ debounceTimers st0 !! uri d = None ->
            diagnosticCollection (lint env d0 st0).2 !! uri d = None
            /\ debounceTimers (lint env d0 st0).2 !! uri d = None) as Hstep.
  { intros d0 st0 [Hd Ht]. unfold lint. rewrite Hoff. simpl.
    rewrite clear_returns. simpl.
    destruct (debounceTimers st0 !! uri d0); simpl;
      rewrite !lookup_delete; repeat case_decide; done. }
  assert (forall documents0 st0,
            diagnosticCollection st0 !! uri d = None
            /\ debounceTimers st0 !! uri d = None ->
            diagnosticCollection (lintAll env documents0 st0) !! uri d = None
            /\ debounceTimers (lintAll env documents0 st0) !! uri d = None)
    as Hkeep.
  { induction documents0 as [|d0 documents0 IH]; intros st0 Hgood; [done|].
    simpl. by apply IH, Hstep. }
  revert st. induction documents as [|d0 documents IH]; intros st Hin;
    [by apply elem_of_nil in Hin|].
  simpl. apply elem_of_cons in Hin as [->|Hin]; [|by apply IH].
  apply Hkeep. unfold lint. rewrite Hoff. simpl. rewrite clear_returns. simpl.
  destruct (debounceTimers st !! uri d0) eqn:Hreg; simpl;
    rewrite ?lookup_delete_eq; done.
Qed.

Lemma forEach_lintAll (env : Env) (test : EditorDocument -> bool)
    (textDocuments : list EditorDocument) (st : State) :
  forEach (fun document =>
             if test document
             then notAwaited (lint env (textDocument document))
             else ret tt)
          textDocuments st
  = (Ok tt, lintAll env (passing test textDocuments) st).
Proof.
  revert st. induction textDocuments as [|d textDocuments IH]; intros st; [done|].
  simpl. unfold bind. unfold passing. rewrite filter_cons.
  destruct (test d) eqn:Htest; simpl.
  - unfold notAwaited. rewrite IH. done.
  - unfold ret. rewrite IH. done.
Qed.

Lemma passing_elem (test : EditorDocument -> bool)
    (textDocuments : list EditorDocument) (d : TextDocument) :
  d ∈ passing test textDocuments
  <-> exists document,
        document ∈ textDocuments /\ test document = true
        /\ textDocument document = d.
Proof.
  unfold passing. rewrite list_elem_of_fmap. split.
  - intros (document & -> & [Htest Hin]%list_elem_of_filter). eauto.
  - intros (document & Hin & Htest & <-). exists document.
    split; [done|]. by apply list_elem_of_filter.
Qed.

Lemma lintAll_enabled_sameTimers (env : Env) (documents : list TextDocument)
    (st : State) :
  enable env = true ->
  timers (lintAll env documents st) = timers st
  /\ debounceTimers (lintAll env documents st) = debounceTimers st.
Proof.
  intros Hon. revert st.
  induction documents as [|d documents IH]; intros st; [done|].
  simpl. destruct (IH (lint env d st).2) as [-> ->].
  by destruct (lint_enabled_sameTimers env d st Hon) as [(-> & -> & _) _].
Qed.

Lemma passing_none (test : EditorDocument -> bool)
    (textDocuments : list EditorDocument) :
  (forall document, document ∈ textDocuments -> test document = false) ->
  passing test textDocuments = [].
Proof.
  unfold passing. induction textDocuments as [|d l IH]; intros Hnone; [done|].
  rewrite filter_cons_False.
  - apply IH. intros document Hin. apply Hnone. by right.
  - rewrite Hnone by left. done.
Qed.

Lemma passing_same (test1 test2 : EditorDocument -> bool)
    (textDocuments : list EditorDocument) :
  (forall document, test1 document = test2 document) ->
  passing test1 textDocuments = passing test2 textDocuments.
Proof.
  intros Hsame. unfold passing. f_equal. apply list_filter_iff.
  intros document. by rewrite Hsame.
Qed.

Lemma lintAll_app (env : Env) (before after : list TextDocument) (st : State) :
  lintAll env (before ++ after) st = lintAll env after (lintAll env before st).
Proof. unfold lintAll. apply foldl_app. Qed.

(** What is published for a document of the list is what the pass of its
    last occurrence published, which ran after the passes of the documents
    before it. *)
Lemma lintAll_last (env : Env) (before after : list TextDocument)
    (d : TextDocument) (st : State) :
  (forall d', d' ∈ after -> uri d' <> uri d) ->
  diagnosticCollection (lintAll env (before ++ d :: after) st) !! uri d
  = diagnosticCollection (lint env d (lintAll env before st)).2 !! uri d.
Proof.
  intros Hafter. rewrite lintAll_app. simpl.
  by rewrite lintAll_other.
Qed.

(** The config that a resolution returns is cached. *)
Lemma getYamlLintConfig_cached (env : Env) (document : TextDocument) (st : State)
    (cfg : YamlLintConfig) (st' : State) :
  getYamlLintConfig env document st = (Ok cfg, st') ->
  exists key, configCache st' !! key = Some (Some cfg).
Proof.
  rewrite getYamlLintConfig_order.
  destruct (if decide (config env = "") then None
            else fromSource env false
                   (resolvedPath env (workspacePathOf env document)) st)
    as [[cfg1 st1]|] eqn:Huser.
  { intros [= <- <-]. case_decide; [done|].
    apply fromSource_resolvedAt in Huser as [Hhit _]. eauto. }
  destruct (firstCandidate env (candidates env (workspacePathOf env document)) st)
    as [[cfg1 st1]|] eqn:Hcand.
  { intros [= <- <-].
    destruct (firstCandidate_resolvedAt _ _ _ _ _ Hcand) as (key & _ & Hhit & _).
    eauto. }
  intros Hdef. apply fromDefault_resolvedAt in Hdef as [Hhit _]. eauto.
Qed.

(** While the cache holds no object older than [n], no resolution returns
    one. *)
Lemma getYamlLintConfig_since (n : nat) (env : Env) (document : TextDocument)
    (st : State) (o : Outcome YamlLintConfig) (st' : State) :
  cachedSince n st ->
  getYamlLintConfig env document st = (o, st') ->
  cachedSince n st' /\ forall cfg, o = Ok cfg -> (n <= ref cfg)%nat.
Proof.
  intros [Hnext Hsince] Hrun.
  assert (cachedSince n st') as Hsince'.
  { destruct (getYamlLintConfig_writes _ _ _ _ _ Hrun)
      as [->|(key & cfg & _ & Href & -> & _)]; [done|].
    split; [simpl; lia|]. intros key' cached.
    destruct (decide (key' = key)) as [->|Hne].
    - rewrite stored_lookup. intros [= <-]. lia.
    - rewrite stored_lookup_ne by done. apply Hsince. }
  split; [done|]. intros cfg ->.
  destruct (getYamlLintConfig_cached _ _ _ _ _ Hrun) as [key Hkey].
  by apply (proj2 Hsince' key).
Qed.

Lemma lint_since (n : nat) (env : Env) (document : TextDocument) (st : State) :
  cachedSince n st -> cachedSince n (lint env document st).2.
Proof.
  intros Hsince. unfold lint. destruct (enable env); simpl.
  - unfold try. rewrite lintBody_steps.
    destruct (getYamlLintConfig env document st) as [[yamlConfig|e] st1] eqn:Hcfg;
      apply (getYamlLintConfig_since n) in Hcfg as [Hcfg _]; [|done|exact Hcfg|done].
    destruct (runAll env (getText document) yamlConfig (fsPath document))
      as [problems|e]; [|exact Hcfg].
    by destruct (mapM_problemToDiagnostic document problems st1)
      as (diagnostics & -> & _).
  - destruct (clear_effect document st) as (Hc & Hn & _).
    unfold cachedSince. by rewrite Hc, Hn.
Qed.

Lemma lintAll_since (n : nat) (env : Env) (documents : list TextDocument)
    (st : State) :
  cachedSince n st -> cachedSince n (lintAll env documents st).
Proof.
  revert st. induction documents as [|d documents IH]; intros st Hsince; [done|].
  simpl. by apply IH, lint_since.
Qed.

(** ** The listeners *)

Lemma onDidChangeConfiguration_lintAll (env : Env)
    (textDocuments : list EditorDocument) (st : State) :
  onDidChangeConfiguration env true textDocuments st
  = (Ok tt, lintAll env (passing isYamlDocument textDocuments)
              (updateConfiguration env st).2).
Proof.
  unfold onDidChangeConfiguration. unfold bind at 1.
  change (updateConfiguration env st) with (Ok tt, (updateConfiguration env st).2).
  cbv iota beta. apply forEach_lintAll.
Qed.

(** X11.  A change of the [yamllint] settings re-lints the open YAML
    documents: the listener returns, having called [updateConfiguration]
    and then [lint] for each open YAML document, in order; the delay is the
    one of the settings.  What is published for an open YAML document
    afterwards is what the pass of its last occurrence published, which ran
    in the state after [updateConfiguration] and the passes before it; the
    config that this pass resolved was constructed after the settings
    change, so it is none of the objects that were cached before.  So with
    linting enabled each open YAML document has the diagnostics of a lint
    pass on an open YAML document with its identity, and with linting
    disabled no diagnostics and no timer.  The documents that are not open
    YAML documents keep their diagnostics, and a change of other settings
    does nothing. *)
Theorem configuration_change_relints (env : Env)
    (textDocuments : list EditorDocument) (st : State) :
  let st0 := (updateConfiguration env st).2 in
  let documents := passing isYamlDocument textDocuments in
  let st' := (onDidChangeConfiguration env true textDocuments st).2 in
  onDidChangeConfiguration env true textDocuments st
  = (Ok tt, lintAll env documents st0)
  /\ debounceTime st' = debounceTimeSetting env
  /\ (forall before d after,
        documents = before ++ d :: after ->
        let ran := lintAll env before st0 in
        ((forall d', d' ∈ after -> uri d' <> uri d) ->
         diagnosticCollection st' !! uri d
         = diagnosticCollection (lint env d ran).2 !! uri d)
        /\ (forall cfg ran',
              getYamlLintConfig env d ran = (Ok cfg, ran') ->
              (nextObject st <= ref cfg)%nat
              /\ (reachable st ->
                  forall key old,
                    configCache st !! key = Some (Some old) ->
                    ref cfg <> ref old)))
  /\ (forall document,
        document ∈ textDocuments -> isYamlDocument document = true ->
        let u := uri (textDocument document) in
        (enable env = true ->
         exists document' diagnostics,
           document' ∈ textDocuments /\ isYamlDocument document' = true
           /\ uri (textDocument document') = u
           /\ diagnosticCollection st' !! u = Some diagnostics
           /\ publishedBy env (textDocument document') diagnostics)
        /\ (enable env = false ->
            diagnosticCollection st' !! u = None
            /\ debounceTimers st' !! u = None))
  /\ (forall u,
        (forall document,
           document ∈ textDocuments -> isYamlDocument document = true ->
           uri (textDocument document) <> u) ->
        diagnosticCollection st' !! u = diagnosticCollection st !! u)
  /\ onDidChangeConfiguration env false textDocuments st = (Ok tt, st).
Proof.
  intros st0 documents st'.
  pose proof (onDidChangeConfiguration_lintAll env textDocuments st) as Hrun.
  fold st0 documents in Hrun.
  unfold st'. rewrite Hrun. simpl snd.
  split; [done|].
  split; [by rewrite lintAll_debounceTime|].
  split; [|split; [|split; [|done]]].
  - intros before d after Hsplit. cbv zeta. split.
    + intros Hafter. rewrite Hsplit. by apply lintAll_last.
    + intros cfg ran' Hcfg.
      assert (cachedSince (nextObject st) (lintAll env before st0)) as Hsince.
      { apply lintAll_since. split; [done|]. intros key cached.
        unfold st0. simpl. by rewrite lookup_empty. }
      destruct (getYamlLintConfig_since _ _ _ _ _ _ Hsince Hcfg) as [_ Hnew].
      specialize (Hnew cfg eq_refl). split; [done|].
      intros Hinv%reachable_invariant key old Hold.
      pose proof (cached_given _ Hinv _ _ Hold). lia.
  - intros document Hin Hyaml. cbv zeta.
    assert (textDocument document ∈ documents) as Hd
      by (apply passing_elem; eauto).
    split; intros Hon.
    + destruct (lintAll_publishes env _ st0 _ Hon Hd)
        as (d' & diagnostics & Hin' & Hu & Hlook & Hpub).
      apply passing_elem in Hin' as (document' & Hin' & Hyaml' & <-).
      exists document', diagnostics. done.
    + by apply lintAll_clears.
  - intros u Hother. rewrite lintAll_other; [done|].
    intros d (document & Hin & Hyaml & <-)%passing_elem. by apply Hother.
Qed.

(** With linting enabled, in the sample state with its cached config
    (object 0): after the change, what is published for the second YAML
    document of the editor is what [lint] published for it after the pass
    of the first, and the config in the cache is a new object (object 1).
    With linting disabled, the two YAML documents end without diagnostics
    and no timeout is left. *)
Lemma configuration_change_relints_witness :
  (let st' := (onDidChangeConfiguration sampleEnv true sampleEditor busyState).2 in
   let ran := lintAll sampleEnv [sampleDocument]
                (updateConfiguration sampleEnv busyState).2 in
   diagnosticCollection st' !! uri otherDocument
   = diagnosticCollection (lint sampleEnv otherDocument ran).2 !! uri otherDocument
   /\ configCache busyState !! "/work/.yamllint.yml"
      = Some (Some {| ref := 0; rules := "rules of /work/.yamllint.yml" |})
   /\ configCache st' !! "/work/.yamllint.yml"
      = Some (Some {| ref := 1; rules := "rules of /work/.yamllint.yml" |}))
  /\ (let st' := (onDidChangeConfiguration disabledEnv true sampleEditor busyState).2 in
      diagnosticCollection st' !! uri sampleDocument = None
      /\ diagnosticCollection st' !! uri otherDocument = None
      /\ timers st' = ∅).
Proof.
  split.
  - intros st' ran.
    destruct (configuration_change_relints sampleEnv sampleEditor busyState)
      as (_ & _ & Hpass & _).
    destruct (Hpass [sampleDocument] otherDocument [] eq_refl) as [Hlast _].
    split; [|split; vm_compute; reflexivity].
    apply Hlast. intros d' Hin. by apply elem_of_nil in Hin.
  - intros st'.
    destruct (configuration_change_relints disabledEnv sampleEditor busyState)
      as (_ & _ & _ & Hopen & _).
    split; [|split; [|vm_compute; reflexivity]].
    + refine (proj1 (proj2 (Hopen {| textDocument := sampleDocument;
                                     languageId := "yaml";
                                     fileName := "/work/a.yaml" |} _ _) _));
        [left|reflexivity|reflexivity].
    + refine (proj1 (proj2 (Hopen {| textDocument := otherDocument;
                                     languageId := "plaintext";
                                     fileName := "/work/c.yml" |} _ _) _));
        [right; right; left|reflexivity|reflexivity].
Defined.

(** X12.  Activation lints what is open: the state after [activate] is the
    constructed state after [lint] was called, in order, for each open
    document that should be linted on open, which with linting and the
    trigger [lintOnOpen] enabled are the open YAML documents.  What is
    published for such a document is what the pass of its last occurrence
    published, which ran after the passes before it.  The state is one the
    provider can reach, and no timeout is pending in it.  With linting or
    that trigger disabled nothing is linted.  No other document has
    diagnostics. *)
Theorem activate_lints_open_documents (env : Env) (triggers : Triggers)
    (textDocuments : list EditorDocument) :
  let st := activate env triggers textDocuments in
  let documents :=
    passing (fun document => shouldLint env triggers document OnOpen)
      textDocuments in
  st = lintAll env documents (constructed env)
  /\ (enable env = true -> lintOnOpen triggers = true ->
      documents = passing isYamlDocument textDocuments)
  /\ (forall before d after,
        documents = before ++ d :: after ->
        (forall d', d' ∈ after -> uri d' <> uri d) ->
        diagnosticCollection st !! uri d
        = diagnosticCollection
            (lint env d (lintAll env before (constructed env))).2 !! uri d)
  /\ reachable st
  /\ timers st = ∅
  /\ (enable env = true -> lintOnOpen triggers = true ->
      forall document,
        document ∈ textDocuments -> isYamlDocument document = true ->
        exists document' diagnostics,
          document' ∈ textDocuments /\ isYamlDocument document' = true
          /\ uri (textDocument document') = uri (textDocument document)
          /\ diagnosticCollection st !! uri (textDocument document)
             = Some diagnostics
          /\ publishedBy env (textDocument document') diagnostics)
  /\ (enable env = false \/ lintOnOpen triggers = false -> st = constructed env)
  /\ (forall u,
        (forall document,
           document ∈ textDocuments -> isYamlDocument document = true ->
           uri (textDocument document) <> u) ->
        diagnosticCollection st !! u = None).
Proof.
  intros st documents.
  set (test := fun document => shouldLint env triggers document OnOpen) in *.
  assert (st = lintAll env documents (constructed env)) as Hst.
  { unfold st, activate. by rewrite (forEach_lintAll env test). }
  assert (forall document, test document = true ->
            isYamlDocument document = true /\ enable env = true
            /\ lintOnOpen triggers = true) as Htest.
  { intros document. unfold test, shouldLint.
    destruct (isYamlDocument document), (enable env); simpl; done. }
  assert (enable env = false \/ lintOnOpen triggers = false ->
          documents = []) as Hnone.
  { intros Hoff. apply passing_none. intros document _.
    destruct (test document) eqn:Hd; [|done].
    destruct (Htest document Hd) as (_ & ? & ?). destruct Hoff; congruence. }
  split; [exact Hst|].
  split.
  { intros Hon Hopen. apply passing_same. intros document.
    unfold test, shouldLint. rewrite Hon, Hopen.
    by destruct (isYamlDocument document). }
  rewrite Hst.
  split.
  { intros before d after Hsplit Hafter. rewrite Hsplit. by apply lintAll_last. }
  split; [apply lintAll_reachable, reachable_constructed|].
  split.
  { destruct (enable env) eqn:Hon.
    - by destruct (lintAll_enabled_sameTimers env documents
                     (constructed env) Hon) as [-> _].
    - rewrite Hnone by by left. done. }
  split.
  { intros Hon Hopen document Hin Hyaml.
    assert (test document = true) as Hd
      by (unfold test, shouldLint; by rewrite Hyaml, Hon).
    destruct (lintAll_publishes env documents
                (constructed env) (textDocument document) Hon)
      as (d' & diagnostics & Hin' & Hu & Hlook & Hpub);
      [apply passing_elem; eauto|].
    apply passing_elem in Hin' as (document' & Hin' & Hd' & <-).
    exists document', diagnostics.
    destruct (Htest _ Hd') as (? & _). done. }
  split; [intros Hoff; by rewrite Hnone|].
  intros u Hother. rewrite lintAll_other; [done|].
  intros d (document & Hin & Hd & <-)%passing_elem.
  apply Hother; [done|]. by destruct (Htest _ Hd).
Qed.

(** Activation with the sample editor: the two YAML documents are linted,
    the text file is not, and what is published for the second YAML
    document is what [lint] published for it after the pass of the
    first. *)
Lemma activate_lints_open_documents_witness :
  let st := activate sampleEnv allTriggers sampleEditor in
  st = lintAll sampleEnv [sampleDocument; otherDocument] (constructed sampleEnv)
  /\ diagnosticCollection st !! uri otherDocument
     = diagnosticCollection
         (lint sampleEnv otherDocument
            (lintAll sampleEnv [sampleDocument] (constructed sampleEnv))).2
       !! uri otherDocument
  /\ diagnosticCollection st !! "file:///work/notes.txt" = None.
Proof.
  intros st.
  destruct (activate_lints_open_documents sampleEnv allTriggers sampleEditor)
    as (Hst & _ & Hpass & _ & _ & _ & _ & Hother).
  split; [exact Hst|]. split.
  - apply (Hpass [sampleDocument] otherDocument []); [reflexivity|].
    intros d' Hin. by apply elem_of_nil in Hin.
  - apply Hother. intros document Hin Hyaml.
    repeat (apply elem_of_cons in Hin as [->|Hin]; [done|]).
    by apply elem_of_nil in Hin.
Defined.

(** X13.  The listeners of open, save and change are gated by
    [shouldLint]: for a document that is no YAML document, or with linting
    disabled, or with the trigger of the event disabled, they leave the
    provider exactly as it is, so they do not clear the diagnostics that
    the document has, not even when linting was disabled since they were
    published; otherwise open and save do what [lint] does and change does
    what [lintWithDebounce] does.  Close is not gated: it does what
    [clear] does for every document, whatever the settings.  The command
    [yamllint.lint] ignores the triggers: it does what [lint] does for the
    active YAML document, which with linting disabled clears it.  No
    listener throws, and each leaves the provider in a state it can reach,
    so that what holds in every reachable state holds after every
    event. *)
Theorem listeners_keep_reachable (env : Env) (triggers : Triggers)
    (event : Event) (st : State) :
  reachable st ->
  (handle env triggers event st).1 = Ok tt
  /\ reachable (handle env triggers event st).2
  /\ (forall document trigger,
        (event = DidOpenTextDocument document /\ trigger = OnOpen)
        \/ (event = DidSaveTextDocument document /\ trigger = OnSave)
        \/ (event = DidChangeTextDocument document /\ trigger = OnChange) ->
        (isYamlDocument document = false
         \/ enable env = false
         \/ (trigger = OnOpen /\ lintOnOpen triggers = false)
         \/ (trigger = OnSave /\ lintOnSave triggers = false)
         \/ (trigger = OnChange /\ lintOnChange triggers = false)) ->
        handle env triggers event st = (Ok tt, st))
  /\ (forall document,
        isYamlDocument document = true -> enable env = true ->
        (event = DidOpenTextDocument document -> lintOnOpen triggers = true ->
         (handle env triggers event st).2 = (lint env (textDocument document) st).2)
        /\ (event = DidSaveTextDocument document -> lintOnSave triggers = true ->
            (handle env triggers event st).2
            = (lint env (textDocument document) st).2)
        /\ (event = DidChangeTextDocument document -> lintOnChange triggers = true ->
            handle env triggers event st
            = lintWithDebounce (textDocument document) st))
  /\ (forall document,
        event = DidCloseTextDocument document ->
        handle env triggers event st = clear (textDocument document) st)
  /\ (forall document,
        event = LintCommand (Some document) ->
        isYamlDocument document = true ->
        (handle env triggers event st).2 = (lint env (textDocument document) st).2
        /\ (enable env = false ->
            diagnosticCollection (handle env triggers event st).2
              !! uri (textDocument document) = None)).
Proof.
  intros Hreach.
  assert (forall d, reachable (lint env d st).2) as Hlint
    by (intros d; exact (reachable_perform env (Lint d) st Hreach)).
  split; [|split; [|split; [|split; [|split]]]].
  - destruct event as [d|d|d|d|[] l|[d|]]; simpl;
      unfold onDidOpenTextDocument, onDidSaveTextDocument,
        onDidChangeTextDocument, onDidCloseTextDocument, lintCommand;
      try (destruct (shouldLint env triggers d _)); try done.
    + by rewrite lintWithDebounce_returns.
    + by rewrite clear_returns.
    + exact (f_equal fst (onDidChangeConfiguration_lintAll env l st)).
    + by destruct (isYamlDocument d).
  - destruct event as [d|d|d|d|[] l|[d|]]; simpl;
      unfold onDidOpenTextDocument, onDidSaveTextDocument,
        onDidChangeTextDocument, onDidCloseTextDocument, lintCommand;
      try (destruct (shouldLint env triggers d _)); simpl; try done.
    + exact (reachable_perform env (LintWithDebounce _) st Hreach).
    + exact (reachable_perform env (Clear _) st Hreach).
    + refine (eq_ind_r reachable _
                (f_equal snd (onDidChangeConfiguration_lintAll env l st))).
      simpl. apply lintAll_reachable.
      exact (reachable_perform env UpdateConfiguration st Hreach).
    + destruct (isYamlDocument d); simpl; done.
  - intros document trigger Hevent Hoff.
    assert (shouldLint env triggers document trigger = false) as Hno.
    { unfold shouldLint.
      destruct (isYamlDocument document), (enable env); simpl; try done.
      destruct Hoff as [?|[?|[[-> ?]|[[-> ?]|[-> ?]]]]]; done. }
    destruct Hevent as [[-> ->]|[[-> ->]|[-> ->]]]; simpl;
      unfold onDidOpenTextDocument, onDidSaveTextDocument,
        onDidChangeTextDocument; by rewrite Hno.
  - intros document Hyaml Hon.
    split; [|split]; intros -> Htrigger; simpl;
      unfold onDidOpenTextDocument, onDidSaveTextDocument,
        onDidChangeTextDocument, shouldLint;
      by rewrite Hyaml, Hon, Htrigger.
  - by intros document ->.
  - intros document -> Hyaml. simpl. rewrite Hyaml. split; [done|].
    intros Hoff. unfold notAwaited, lint. simpl. rewrite Hoff. simpl.
    rewrite clear_returns. simpl.
    destruct (debounceTimers st !! uri (textDocument document)); simpl;
      apply lookup_delete_eq.
Qed.

(** In the sample state, with linting disabled: saving the sample
    document leaves the state as it is, with the two diagnostics that were
    published for the document before; the command [yamllint.lint] clears
    them.  With linting enabled and all triggers on, a change of the
    document does what [lintWithDebounce] does. *)
Lemma listeners_keep_reachable_witness :
  let document := {| textDocument := sampleDocument; languageId := "yaml";
                     fileName := "/work/a.yaml" |} in
  handle disabledEnv allTriggers (DidSaveTextDocument document) busyState
  = (Ok tt, busyState)
  /\ length (default [] (diagnosticCollection busyState !! uri sampleDocument))
     = 2%nat
  /\ diagnosticCollection
       (handle disabledEnv allTriggers (LintCommand (Some document)) busyState).2
       !! uri sampleDocument = None
  /\ handle sampleEnv allTriggers (DidChangeTextDocument document) busyState
     = lintWithDebounce sampleDocument busyState.
Proof.
  intros document.
  assert (reachable busyState) as Hreach by (repeat constructor).
  split; [|split; [vm_compute; reflexivity|split]].
  - refine (proj1 (proj2 (proj2 (listeners_keep_reachable disabledEnv allTriggers _
                                   busyState Hreach))) document OnSave _ _);
      [right; left; done|right; left; reflexivity].
  - destruct (listeners_keep_reachable disabledEnv allTriggers
                (LintCommand (Some document)) busyState Hreach)
      as (_ & _ & _ & _ & _ & Hcommand).
    destruct (Hcommand document eq_refl eq_refl) as [_ Hcleared].
    by apply Hcleared.
  - destruct (listeners_keep_reachable sampleEnv allTriggers
                (DidChangeTextDocument document) busyState Hreach)
      as (_ & _ & _ & Hgated & _).
    destruct (Hgated document eq_refl eq_refl) as (_ & _ & Hchange).
    by apply Hchange.
Defined.

(** ** The command that lints the workspace *)

(** The count of the loop: it grows by one for each turn, up to the turn
    that finds the cancellation requested. *)
Lemma lintFiles_count (env : Env) (openTextDocument : string -> Outcome TextDocument)
    (isCancellationRequested : nat -> bool) (files : list string) :
  forall (n : nat) (st : State),
    let processed :=
      (lintFiles env openTextDocument isCancellationRequested files n st).1 in
    (n <= processed <= n + length files)%nat
    /\ (forall k, (n <= k < processed)%nat -> isCancellationRequested k = false)
    /\ ((processed < n + length files)%nat ->
        isCancellationRequested processed = true).
Proof.
  induction files as [|file files IH]; intros n st; cbv zeta; simpl.
  { split; [lia|]. split; intros; exfalso; lia. }
  destruct (isCancellationRequested n) eqn:Hn; simpl.
  { split; [lia|]. split; [intros; exfalso; lia|done]. }
  match goal with
  | |- context [lintFiles _ _ _ files (S n) ?s] =>
      specialize (IH (S n) s); cbv zeta in IH;
      destruct IH as (Hb & Hrun & Hstop)
  end.
  split; [lia|]. split.
  - intros k Hk. destruct (decide (k = n)) as [->|Hne]; [done|].
    apply Hrun. lia.
  - intros Hlt. apply Hstop. lia.
Qed.

(** Without a cancellation the loop lints each file that the host opens. *)
Lemma lintFiles_lintAll (env : Env) (openTextDocument : string -> Outcome TextDocument)
    (isCancellationRequested : nat -> bool) (files : list string) :
  forall (n : nat) (st : State),
    (forall k, (n <= k < n + length files)%nat ->
       isCancellationRequested k = false) ->
    lintFiles env openTextDocument isCancellationRequested files n st
    = ((n + length files)%nat, lintAll env (opened openTextDocument files) st).
Proof.
  induction files as [|file files IH]; intros n st Hnever; simpl.
  { by rewrite Nat.add_0_r. }
  rewrite Hnever by (simpl; lia).
  rewrite IH by (intros k Hk; apply Hnever; simpl; lia).
  f_equal; [lia|]. unfold opened. simpl.
  by destruct (openTextDocument file).
Qed.

Lemma opened_elem (openTextDocument : string -> Outcome TextDocument)
    (files : list string) (d : TextDocument) :
  d ∈ opened openTextDocument files
  <-> exists file, file ∈ files /\ openTextDocument file = Ok d.
Proof.
  unfold opened. rewrite list_elem_of_omap. split.
  - intros (file & Hin & Hopen). exists file. split; [done|].
    destruct (openTextDocument file); congruence.
  - intros (file & Hin & Hopen). exists file. split; [done|]. by rewrite Hopen.
Qed.

(** X14.  The count that the workspace command reports: with linting
    enabled and files found, the command shows [Linted n YAML files] where
    [n] is the number of turns of the loop before the first one that found
    the cancellation requested, and the number of files when none did.  A
    file that the host fails to open is counted like the others and does
    not end the loop. *)
Theorem lintWorkspace_counts (env : Env) (files : list string)
    (openTextDocument : string -> Outcome TextDocument)
    (isCancellationRequested : nat -> bool) (st : State) :
  enable env = true ->
  files <> [] ->
  exists (processed : nat) (st' : State),
    lintWorkspace env files openTextDocument isCancellationRequested st
    = ([showInformationMessage
          ("Linted " +:+ pretty.pretty processed +:+ " YAML files")], st')
    /\ (processed <= length files)%nat
    /\ (forall k, (k < processed)%nat -> isCancellationRequested k = false)
    /\ ((processed < length files)%nat ->
        isCancellationRequested processed = true)
    /\ ((forall k, (k < length files)%nat -> isCancellationRequested k = false) ->
        processed = length files).
Proof.
  intros Hon Hfiles. unfold lintWorkspace. rewrite Hon. simpl.
  rewrite decide_False by (destruct files; simpl; [done|lia]).
  pose proof (lintFiles_count env openTextDocument isCancellationRequested
                files 0 st) as Hcount. simpl in Hcount.
  destruct (lintFiles env openTextDocument isCancellationRequested files 0 st)
    as [processed st'].
  simpl in Hcount. destruct Hcount as (Hb & Hrun & Hstop).
  exists processed, st'. split; [done|]. split; [lia|].
  split; [intros k Hk; apply Hrun; lia|]. split; [done|].
  intros Hnever. destruct (decide (processed < length files)%nat) as [Hlt|]; [|lia].
  rewrite Hnever in Hstop by done. by specialize (Hstop Hlt).
Qed.

Lemma lintWorkspace_counts_witness :
  (lintWorkspace sampleEnv
     ["file:///work/a.yaml"; "file:///work/gone.yaml"; "file:///work/c.yaml"]
     sampleOpen (fun _ => false) (constructed sampleEnv)).1
  = [showInformationMessage "Linted 3 YAML files"].
Proof.
  destruct (lintWorkspace_counts sampleEnv
              ["file:///work/a.yaml"; "file:///work/gone.yaml"; "file:///work/c.yaml"]
              sampleOpen (fun _ => false) (constructed sampleEnv))
    as (processed & st' & -> & _ & _ & _ & Hall); [done|done|].
  rewrite Hall by done. reflexivity.
Defined.

(** X15.  What the workspace command does to the provider, when no other
    event is handled while it runs: with linting disabled it shows a
    warning and lints nothing, whatever files there are; without files it
    shows that none was found; and when no cancellation is requested, it
    calls [lint] for each file that the host opens, in order, so that each
    such document has the diagnostics of a lint pass on an opened document
    with its identity, and the provider is in a state it can reach. *)
Theorem lintWorkspace_lints_opened (env : Env) (files : list string)
    (openTextDocument : string -> Outcome TextDocument)
    (isCancellationRequested : nat -> bool) (st : State) :
  let result :=
    lintWorkspace env files openTextDocument isCancellationRequested st in
  (enable env = false -> result = ([showWarningMessage "yamllint is disabled"], st))
  /\ (enable env = true -> files = [] ->
      result = ([showInformationMessage "No YAML files found in workspace"], st))
  /\ (enable env = true ->
      (forall k, (k < length files)%nat -> isCancellationRequested k = false) ->
      result.2 = lintAll env (opened openTextDocument files) st
      /\ (reachable st -> reachable result.2)
      /\ forall file d,
           file ∈ files -> openTextDocument file = Ok d ->
           exists d' diagnostics,
             d' ∈ opened openTextDocument files /\ uri d' = uri d
             /\ diagnosticCollection result.2 !! uri d = Some diagnostics
             /\ publishedBy env d' diagnostics).
Proof.
  intros result. split; [|split].
  - intros Hoff. unfold result, lintWorkspace. by rewrite Hoff.
  - intros Hon ->. unfold result, lintWorkspace. by rewrite Hon.
  - intros Hon Hnever.
    assert (result.2 = lintAll env (opened openTextDocument files) st) as Hst.
    { unfold result, lintWorkspace. rewrite Hon. simpl.
      destruct (decide (length files = 0%nat)) as [Hnil|Hsome].
      - by destruct files.
      - rewrite lintFiles_lintAll by (intros k Hk; apply Hnever; lia). done. }
    split; [done|]. rewrite Hst.
    split; [apply lintAll_reachable|].
    intros file d Hin Hopen.
    apply lintAll_publishes; [done|]. apply opened_elem. eauto.
Qed.

Lemma lintWorkspace_lints_opened_witness :
  let result :=
    lintWorkspace sampleEnv
      ["file:///work/a.yaml"; "file:///work/gone.yaml"; "file:///work/c.yaml"]
      sampleOpen (fun _ => false) (constructed sampleEnv) in
  exists diagnostics,
    diagnosticCollection result.2 !! uri otherDocument = Some diagnostics
    /\ length diagnostics = 0%nat.
Proof.
  intros result.
  destruct (lintWorkspace_lints_opened sampleEnv
              ["file:///work/a.yaml"; "file:///work/gone.yaml"; "file:///work/c.yaml"]
              sampleOpen (fun _ => false) (constructed sampleEnv))
    as (_ & _ & Hall).
  destruct (Hall eq_refl (fun _ _ => eq_refl)) as (Hst & _ & _).
  fold result in Hst. rewrite Hst. eexists. split; vm_compute; reflexivity.
Defined.
